(** * snodelist: the task-count decoder and the machine-file line formatter

    A shallow embedding of [task_count_init], [task_count_next] and
    [print_machinefile] of [snodelist.c], together with the properties of
    them that the specification states.

    Conventions of the embedding.
    - A C string is a [list ascii]; reading at or past its end yields the
      terminating NUL.  Every loop of the source that stops on NUL stops
      the same way here, so a list that holds a NUL behaves like the C
      string that ends there.
    - A pointer into the task-count string is an offset ([nat]) from
      [task_count_str]; a pointer into the format is the suffix it points
      at.
    - [int] is 32 bits and [long] 64 bits (LP64); a value leaves [long] for
      [int] by wrap-around.
    - [stdout] is the list of characters written, [stderr] the list of
      diagnostics written, [exit] an explicit status.
    - A stream is the lines left to read and its end-of-file indicator; the
      loop that reads it runs for a number of reads, and may still be
      running after any number of them. *)

From Stdlib Require Import Ascii String List ZArith Lia Bool Arith.
From Stdlib Require Import Numbers.DecimalString.
From Equations Require Import Equations.
Import ListNotations.

Open Scope Z_scope.


(** ** C strings *)

Module CString.

Definition NUL : ascii := "000".

(** A string literal of the source, as the characters before its NUL. *)
Definition lit (s : string) : list ascii := list_ascii_of_string s.

(** [*p] for a pointer given as the suffix it points at. *)
Definition deref (p : list ascii) : ascii := hd NUL p.

(** [*(s + i)]. *)
Definition at_offset (s : list ascii) (i : nat) : ascii := nth i s NUL.

(** The characters [fprintf("%s")] writes: up to the first NUL. *)
Fixpoint c_str (s : list ascii) : list ascii :=
  match s with
  | [] => []
  | c :: s' => if Ascii.eqb c NUL then [] else c :: c_str s'
  end.

(** [isspace] in the C locale. *)
Definition isspace (c : ascii) : bool :=
  Ascii.eqb c " " || Ascii.eqb c "009" || Ascii.eqb c "010"
  || Ascii.eqb c "011" || Ascii.eqb c "012" || Ascii.eqb c "013".

Definition isdigit (c : ascii) : bool :=
  (48 <=? nat_of_ascii c)%nat && (nat_of_ascii c <=? 57)%nat.

Definition digit_value (c : ascii) : Z := Z.of_nat (nat_of_ascii c) - 48.

(** [s] begins with the characters of [pat]. *)
Fixpoint starts_with (pat s : list ascii) : bool :=
  match pat, s with
  | [], _ => true
  | _ :: _, [] => false
  | a :: pat', c :: s' => Ascii.eqb a c && starts_with pat' s'
  end.

(** [strstr(s, pat)] for a non-empty [pat] free of NUL: the suffix of [s]
    at the first occurrence of [pat] before the end of the C string, or
    [None] for a null pointer. *)
Fixpoint strstr (s pat : list ascii) : option (list ascii) :=
  match s with
  | [] => None
  | c :: s' =>
      if Ascii.eqb c NUL then None
      else if starts_with pat s then Some s
      else strstr s' pat
  end.

(** ** Integer types *)

Definition LONG_MAX : Z := 9223372036854775807.
Definition LONG_MIN : Z := -9223372036854775808.
Definition INT_MAX : Z := 2147483647.

(** Conversion of a [long] to [int]. *)
Definition to_int (z : Z) : Z := (z + 2147483648) mod 4294967296 - 2147483648.

Definition clamp_long (z : Z) : Z :=
  if z <? LONG_MIN then LONG_MIN else if LONG_MAX <? z then LONG_MAX else z.

(** ** [strtol(nptr, &endptr, 10)] *)

(** Number of leading white-space characters. *)
Fixpoint skip_space (s : list ascii) : nat :=
  match s with
  | c :: s' => if isspace c then S (skip_space s') else O
  | [] => O
  end.

(** The digits at the head of [s]: their value on top of [acc], and how
    many there are. *)
Fixpoint digits (s : list ascii) (acc : Z) : Z * nat :=
  match s with
  | c :: s' =>
      if isdigit c
      then let '(v, n) := digits s' (acc * 10 + digit_value c) in (v, S n)
      else (acc, O)
  | [] => (acc, O)
  end.

(** Length of the optional sign. *)
Definition sign_length (s : list ascii) : nat :=
  match s with
  | c :: _ => if Ascii.eqb c "-" || Ascii.eqb c "+" then 1%nat else 0%nat
  | [] => 0%nat
  end.

Definition is_negative (s : list ascii) : bool :=
  match s with
  | c :: _ => Ascii.eqb c "-"
  | [] => false
  end.

(** The result of [strtol] on the string at [s], in base 10: the value and
    [endptr - nptr].  White space is skipped, one sign is accepted, the
    digits are read; without a digit nothing is converted ([endptr] is
    [nptr]); a value out of range is [LONG_MAX] or [LONG_MIN]. *)
Definition strtol (s : list ascii) : Z * nat :=
  let ws := skip_space s in
  let s1 := skipn ws s in
  let sg := sign_length s1 in
  let '(v, n) := digits (skipn sg s1) 0 in
  match n with
  | O => (0, O)
  | S _ => (clamp_long (if is_negative s1 then - v else v), (ws + sg + n)%nat)
  end.

(** [fprintf("%d", n)]. *)
Definition decimal (n : Z) : list ascii :=
  lit (NilZero.string_of_int (Z.to_int n)).

End CString.
Import CString.

(** ** The task-count decoder *)

Record task_count_t : Type := mk_task_count {
  task_count_str : list ascii;
  cur_ptr : nat;
  value : Z;
  count : Z
}.

(** The four diagnostics of [task_count_next]. *)
Inductive decode_error : Type :=
| UnexpectedCharacter
| InvalidRepeatCount
| InvalidRepeatSpecification
| InvalidIntegerValue.

(** A line on [stderr]. *)
Inductive message : Type :=
| DecodeError (kind : decode_error) (offset : nat) (spec : list ascii)
| InvalidDelimiter (delim : list ascii).

Definition task_count_init (task_count_str : list ascii) : task_count_t :=
  {| task_count_str := task_count_str; cur_ptr := 0; value := -1; count := 0 |}.

Definition set_value (tc : task_count_t) (v : Z) : task_count_t :=
  {| task_count_str := task_count_str tc; cur_ptr := cur_ptr tc;
     value := v; count := count tc |}.

Definition set_count (tc : task_count_t) (c : Z) : task_count_t :=
  {| task_count_str := task_count_str tc; cur_ptr := cur_ptr tc;
     value := value tc; count := c |}.

Definition set_cur_ptr (tc : task_count_t) (p : nat) : task_count_t :=
  {| task_count_str := task_count_str tc; cur_ptr := p;
     value := value tc; count := count tc |}.

(** What one call of [task_count_next] gives: the [int] returned, the
    decoder afterwards, and the diagnostic written, if any. *)
Definition next_result : Type := Z * task_count_t * option message.

(** The two statements that end [task_count_next]: [tc->count--] and
    [return tc->value].  The decrement is written with the wrap-around of
    a 32-bit [int]; it is only reached at the least [int] after a repeat
    count that did not fit an [int]. *)
Definition yield (tc : task_count_t) : next_result :=
  (value tc, set_count tc (to_int (count tc - 1)), None).

Definition fail (tc : task_count_t) (k : decode_error) (end_ptr : nat)
  : next_result :=
  (-1, tc, Some (DecodeError k end_ptr (task_count_str tc))).

Definition task_count_next (tc : task_count_t) : next_result :=
  let s := task_count_str tc in
  if count tc =? 0 then
    if negb (Ascii.eqb (at_offset s (cur_ptr tc)) NUL) then
      let '(c, n) := strtol (skipn (cur_ptr tc) s) in
      let end_ptr := (cur_ptr tc + n)%nat in
      if (0 <? n)%nat then
        let tc := set_value tc (to_int c) in
        if Ascii.eqb (at_offset s end_ptr) "(" then
          let end_ptr := S end_ptr in
          if Ascii.eqb (at_offset s end_ptr) "x" then
            let end_ptr := S end_ptr in
            let '(c, m) := strtol (skipn end_ptr s) in
            let alt_end_ptr := (end_ptr + m)%nat in
            if (0 <? c) && (0 <? m)%nat then
              let tc := set_count tc (to_int c) in
              let end_ptr := alt_end_ptr in
              if Ascii.eqb (at_offset s end_ptr) ")"
                 && (Ascii.eqb (at_offset s (S end_ptr)) ","
                     || Ascii.eqb (at_offset s (S end_ptr)) NUL)
              then
                let end_ptr := S end_ptr in
                let end_ptr :=
                  if negb (Ascii.eqb (at_offset s end_ptr) NUL)
                  then S end_ptr else end_ptr in
                yield (set_cur_ptr tc end_ptr)
              else fail tc UnexpectedCharacter end_ptr
            else fail tc InvalidRepeatCount end_ptr
          else fail tc InvalidRepeatSpecification end_ptr
        else if Ascii.eqb (at_offset s end_ptr) "," then
          yield (set_cur_ptr (set_count tc 1) (S end_ptr))
        else if Ascii.eqb (at_offset s end_ptr) NUL then
          yield (set_cur_ptr (set_count tc 1) end_ptr)
        else fail tc UnexpectedCharacter end_ptr
      else fail tc InvalidIntegerValue (cur_ptr tc)
    else (-1, tc, None)
  else yield tc.

(** The [int]s returned by [k] successive calls, with the diagnostics
    written meanwhile and the decoder afterwards. *)
Fixpoint next_calls (k : nat) (tc : task_count_t)
  : list Z * list message * task_count_t :=
  match k with
  | O => ([], [], tc)
  | S k' =>
      let '(v, tc1, d) := task_count_next tc in
      let '(vs, ds, tc2) := next_calls k' tc1 in
      (v :: vs, match d with Some m => m :: ds | None => ds end, tc2)
  end.

(** The decoder is exhausted: no entry is active and the cursor is at the
    end of the string. *)
Definition exhausted (tc : task_count_t) : bool :=
  (count tc =? 0) && Ascii.eqb (at_offset (task_count_str tc) (cur_ptr tc)) NUL.

(** ** The line formatter *)

(** The loop that moves a pointer forward up to a closing bracket or the
    end of the string: the characters passed over, and the pointer
    afterwards. *)
Fixpoint scan_delim (s : list ascii) : list ascii * list ascii :=
  match s with
  | [] => ([], [])
  | c :: s' =>
      if Ascii.eqb c NUL || Ascii.eqb c "]" then ([], s)
      else let '(d, q) := scan_delim s' in (c :: d, q)
  end.

Lemma scan_delim_length (s : list ascii) :
  (length (snd (scan_delim s)) <= length s)%nat.
Proof.
  induction s as [|c s IH]; simpl; [lia|].
  destruct (Ascii.eqb c NUL || Ascii.eqb c "]"); simpl; [lia|].
  destruct (scan_delim s); simpl in *; lia.
Qed.

Lemma tl_length {A : Type} (s : list A) : (length (tl s) <= length s)%nat.
Proof. destruct s; simpl; lia. Qed.

Lemma strstr_suffix (pat s p : list ascii) :
  strstr s pat = Some p ->
  (length p <= length s)%nat /\ starts_with pat p = true.
Proof.
  induction s as [|c s IH]; cbn [strstr]; [discriminate|].
  destruct (Ascii.eqb c NUL); [discriminate|].
  destruct (starts_with pat (c :: s)) eqn:E.
  - intros [= <-]. split; [lia | exact E].
  - intros H. destruct (IH H). split; [simpl; lia | assumption].
Qed.

Lemma starts_with_length (pat s : list ascii) :
  starts_with pat s = true -> (length pat <= length s)%nat.
Proof.
  revert s. induction pat as [|a pat IH]; intros [|c s]; simpl;
    try lia; try discriminate.
  intros H. apply andb_prop in H. destruct H as [_ H].
  apply IH in H. lia.
Qed.

(** A value together with the proof that it is the value of [a]. *)
Definition inspect {A : Type} (a : A) : {b : A | a = b} := exist _ a eq_refl.

(** The second part of the classification: the loop over the occurrences
    of ["%["]. *)
Equations? delimited_count (s : list ascii) : bool by wf (length s) lt :=
  delimited_count s with inspect (strstr s (lit "%[")) := {
    | exist _ None _ => false
    | exist _ (Some p) Hp =>
        let q := snd (scan_delim (skipn 2 p)) in
        if Ascii.eqb (deref q) "]" then
          if Ascii.eqb (deref (tl q)) "c" || Ascii.eqb (deref (tl q)) "C"
          then true
          else delimited_count (tl q)
        else delimited_count q }.
Proof.
  all: apply strstr_suffix in Hp; destruct Hp as [Hl Hs];
    apply starts_with_length in Hs; simpl in Hs;
    pose proof (scan_delim_length (skipn 2 p)) as Hq;
    pose proof (tl_length (snd (scan_delim (skipn 2 p)))) as Ht;
    rewrite length_skipn in Hq;
    change (snd (scan_delim (skipn 2 p))) with q in Hq, Ht; lia.
Qed.

(** The classification at the head of [print_machinefile]. *)
Definition has_count (format : list ascii) : bool :=
  match strstr format (lit "%c"), strstr format (lit "%C") with
  | None, None => delimited_count format
  | _, _ => true
  end.

(** Output followed by what the rest of the line gives. *)
Definition put (o : list ascii) (r : list ascii * option (list ascii))
  : list ascii * option (list ascii) :=
  (o ++ fst r, snd r).

(** The token loop of the single-pass branch, from [format_ptr] on: the
    characters written to [stdout], and [Some delim] when the loop ends in
    the invalid-delimiter error with [delim] the string reported. *)
Equations? render_line (node_name : list ascii) (task_count : Z)
    (format_ptr : list ascii) : list ascii * option (list ascii)
    by wf (length format_ptr) lt :=
  render_line node_name task_count [] := ([], None);
  render_line node_name task_count (c :: p) :=
    if Ascii.eqb c NUL then ([], None)
    else if Ascii.eqb c "%" then
      if Ascii.eqb (deref p) "%" then
        put ["%"%char] (render_line node_name task_count (tl p))
      else if Ascii.eqb (deref p) "h" then
        put (c_str node_name) (render_line node_name task_count (tl p))
      else if Ascii.eqb (deref p) "C" && (task_count <=? 1) then
        render_line node_name task_count (tl p)
      else if Ascii.eqb (deref p) "C" || Ascii.eqb (deref p) "c" then
        put (decimal task_count) (render_line node_name task_count (tl p))
      else if Ascii.eqb (deref p) "[" then
        let delim := tl p in
        let q := snd (scan_delim delim) in
        if Ascii.eqb (deref q) "]" then
          let r := tl q in
          if Ascii.eqb (deref r) "C" && (task_count <=? 1) then
            render_line node_name task_count (tl r)
          else if Ascii.eqb (deref r) "C" || Ascii.eqb (deref r) "c" then
            put (fst (scan_delim delim) ++ decimal task_count)
                (render_line node_name task_count (tl r))
          else if Ascii.eqb (deref r) NUL then ([], None)
          else render_line node_name task_count (tl r)
        else ([], Some (c_str delim))
      else if Ascii.eqb (deref p) NUL then ([], None)
      else render_line node_name task_count (tl p)
    else put [c] (render_line node_name task_count p).
Proof.
  all: pose proof (tl_length p) as Hp;
    pose proof (scan_delim_length (tl p)) as Hq;
    pose proof (tl_length (snd (scan_delim (tl p)))) as Hr;
    pose proof (tl_length (tl (snd (scan_delim (tl p))))) as Hs;
    try subst r q delim; simpl; lia.
Qed.

(** The token loop of the repeat branch: only [%%] and [%h] are
    substituted. *)
Fixpoint plain_line (node_name format_ptr : list ascii) : list ascii :=
  match format_ptr with
  | [] => []
  | c :: p =>
      if Ascii.eqb c NUL then []
      else if Ascii.eqb c "%" then
        match p with
        | [] => []
        | c1 :: p1 =>
            if Ascii.eqb c1 "%" then "%"%char :: plain_line node_name p1
            else if Ascii.eqb c1 "h" then c_str node_name ++ plain_line node_name p1
            else if Ascii.eqb c1 NUL then []
            else plain_line node_name p1
        end
      else c :: plain_line node_name p
  end.

Definition newline : ascii := "010".

(** The [while] loop on [task_count--] of the repeat branch, entered with
    a positive [task_count]. *)
Definition repeat_lines (node_name format : list ascii) (task_count : Z)
  : list ascii :=
  concat (repeat (plain_line node_name format ++ [newline]) (Z.to_nat task_count)).

(** What a run leaves behind: [stdout], [stderr], and the status of
    [exit] when the run ended there. *)
Record output : Type := mk_output {
  stdout : list ascii;
  stderr : list message;
  exited : option Z
}.

Definition EINVAL : Z := 22.

Definition diagnostics (d : option message) : list message :=
  match d with Some m => [m] | None => [] end.

(** Output written before the rest of the run. *)
Definition write (o : list ascii) (r : output) : output :=
  {| stdout := o ++ stdout r; stderr := stderr r; exited := exited r |}.

(** The body of the loop for one host. *)
Definition host_lines (has_count no_repeats : bool) (format node_name : list ascii)
    (task_count : Z) : list ascii * option (list ascii) :=
  if has_count || no_repeats then
    let '(o, e) := render_line node_name task_count format in
    match e with
    | None => (o ++ [newline], None)
    | Some delim => (o, Some delim)
    end
  else (repeat_lines node_name format task_count, None).

(** The loop of [print_machinefile] over the hosts that
    [slurm_hostlist_shift] hands out. *)
Fixpoint machinefile_loop (has_count no_repeats : bool) (format : list ascii)
    (the_hostlist : list (list ascii)) (tc : task_count_t) : output :=
  match the_hostlist with
  | [] => {| stdout := []; stderr := []; exited := None |}
  | node_name :: the_hostlist' =>
      let '(task_count, tc', d) := task_count_next tc in
      if task_count <=? 0 then
        {| stdout := []; stderr := diagnostics d; exited := None |}
      else
        match host_lines has_count no_repeats format node_name task_count with
        | (o, Some delim) =>
            {| stdout := o;
               stderr := diagnostics d ++ [InvalidDelimiter delim];
               exited := Some EINVAL |}
        | (o, None) =>
            write o (machinefile_loop has_count no_repeats format the_hostlist' tc')
        end
  end.

Definition print_machinefile (the_hostlist : list (list ascii))
    (tc : task_count_t) (format : list ascii) (no_repeats : bool) : output :=
  machinefile_loop (has_count format) no_repeats format the_hostlist tc.

(** * The examples of the specification *)

Example next_calls_example :
  next_calls 7 (task_count_init (lit "4(x2),2,1(x3)")) =
  ([4; 4; 2; 1; 1; 1; -1], [],
   {| task_count_str := lit "4(x2),2,1(x3)"; cur_ptr := 13;
      value := 1; count := 0 |}).
Proof. vm_compute. reflexivity. Qed.

Example classify_default : has_count (lit "%h%[:]C") = true.
Proof. reflexivity. Qed.

Example classify_host_only : has_count (lit "%h") = false.
Proof. reflexivity. Qed.

Example end_to_end :
  print_machinefile [lit "n000"; lit "n001"; lit "n002"]
    (task_count_init (lit "2,1(x2)")) (lit "%h%[:]C") false
  = {| stdout := lit "n000:2" ++ [newline] ++ lit "n001" ++ [newline]
                 ++ lit "n002" ++ [newline];
       stderr := []; exited := None |}.
Proof. vm_compute. reflexivity. Qed.

(** * Properties of the decoder *)

Section DecoderFacts.

Lemma at_offset_skipn (s : list ascii) (i : nat) :
  at_offset s i = deref (skipn i s).
Proof.
  unfold at_offset, deref. revert s.
  induction i as [|i IH]; intros [|c s]; simpl; auto.
Qed.

Lemma to_int_small (z : Z) :
  -2147483648 <= z <= INT_MAX -> to_int z = z.
Proof.
  unfold to_int, INT_MAX. intros H.
  rewrite Z.mod_small by lia. lia.
Qed.

(** A call with an entry still active returns its value and uses up one
    repetition. *)
Lemma next_active (tc : task_count_t) :
  count tc <> 0 -> task_count_next tc = yield tc.
Proof.
  intros H. unfold task_count_next.
  destruct (Z.eqb_spec (count tc) 0); [contradiction | reflexivity].
Qed.

(** A call on an exhausted decoder returns -1, writes nothing and leaves
    the decoder as it is. *)
Lemma next_exhausted (tc : task_count_t) :
  exhausted tc = true -> task_count_next tc = (-1, tc, None).
Proof.
  unfold exhausted, task_count_next. intros H.
  apply andb_prop in H. destruct H as [Hc Hn].
  rewrite Hc, Hn. reflexivity.
Qed.

End DecoderFacts.

(** C1. From a freshly initialized decoder on "4(x2),2,1(x3)", six calls
    of [task_count_next] return 4, 4, 2, 1, 1, 1 in that order without a
    diagnostic; the decoder is then exhausted, and the seventh call returns
    -1, writes no diagnostic and leaves the decoder unchanged. *)
Theorem decode_run_length_example :
  let '(vs, ds, tc) := next_calls 6 (task_count_init (lit "4(x2),2,1(x3)")) in
  vs = [4; 4; 2; 1; 1; 1] /\ ds = [] /\ exhausted tc = true
  /\ task_count_next tc = (-1, tc, None).
Proof. vm_compute. repeat split; reflexivity. Qed.

Section NoConversion.

(** [strtol] converts nothing when the string starts with a character that
    is neither white space, nor a sign, nor a digit, and when the string
    is empty. *)
Lemma strtol_stops_at (s : list ascii) :
  isspace (deref s) = false -> isdigit (deref s) = false ->
  Ascii.eqb (deref s) "-" || Ascii.eqb (deref s) "+" = false ->
  strtol s = (0, 0%nat).
Proof.
  destruct s as [|c s]; [reflexivity|].
  unfold deref, strtol; simpl. intros Hs Hd Hg.
  rewrite Hs; simpl. rewrite Hg; simpl. rewrite Hd. reflexivity.
Qed.

Lemma strtol_nothing_value (s : list ascii) :
  snd (strtol s) = 0%nat -> strtol s = (0, 0%nat).
Proof.
  unfold strtol.
  destruct (digits _ 0) as [v [|n]]; simpl; [reflexivity | lia].
Qed.

End NoConversion.

(** C7, as the code has it.  With no entry active, when [strtol] converts
    nothing at the cursor (no decimal digit follows the optional white
    space and the optional sign), [task_count_next] returns -1: silently
    and without touching the decoder when the cursor is at the end of the
    string, and otherwise with the invalid-integer diagnostic, whose offset
    is that of the cursor. *)
Theorem next_without_integer (tc : task_count_t) :
  count tc = 0 ->
  snd (strtol (skipn (cur_ptr tc) (task_count_str tc))) = 0%nat ->
  task_count_next tc =
    if Ascii.eqb (at_offset (task_count_str tc) (cur_ptr tc)) NUL
    then (-1, tc, None)
    else (-1, tc,
          Some (DecodeError InvalidIntegerValue (cur_ptr tc) (task_count_str tc))).
Proof.
  intros Hc Hn. apply strtol_nothing_value in Hn.
  unfold task_count_next. rewrite Hc, Hn. simpl.
  destruct (Ascii.eqb _ NUL); reflexivity.
Qed.

Lemma next_without_integer_witness :
  task_count_next (task_count_init (lit "abc")) =
    (-1, task_count_init (lit "abc"),
     Some (DecodeError InvalidIntegerValue 0 (lit "abc"))).
Proof.
  apply (next_without_integer (task_count_init (lit "abc")));
    reflexivity.
Defined.

(** C7 fails as stated: at the cursor of "-3" and of " 3" there is no
    decimal digit and the string has not ended, yet the call decodes a
    value and writes no diagnostic. *)
Lemma next_accepts_sign_and_space :
  (isdigit (at_offset (lit "-3") 0) = false
   /\ at_offset (lit "-3") 0 <> NUL
   /\ task_count_next (task_count_init (lit "-3")) =
        (-3, {| task_count_str := lit "-3"; cur_ptr := 2;
                value := -3; count := 0 |}, None))
  /\ (isdigit (at_offset (lit " 3") 0) = false
      /\ at_offset (lit " 3") 0 <> NUL
      /\ task_count_next (task_count_init (lit " 3")) =
           (3, {| task_count_str := lit " 3"; cur_ptr := 2;
                  value := 3; count := 0 |}, None)).
Proof. repeat split; try reflexivity; discriminate. Qed.

(** Case analysis on the test of the first conditional of the goal. *)
Ltac case_if :=
  match goal with
  | |- context [strtol ?s] => destruct (strtol s) as [? ?]
  | |- context [if ?b then _ else _] => destruct b eqn:?
  end.

Section Outcomes.

Variable tc tc' : task_count_t.
Variable r : Z.

(** A call that writes a diagnostic returns -1; it was made before the end
    of the string, and the diagnostic is one of the decoder's, about the
    string being decoded. *)
Lemma next_diagnostic (m : message) :
  task_count_next tc = (r, tc', Some m) ->
  r = -1 /\ exhausted tc = false
  /\ exists k off, m = DecodeError k off (task_count_str tc).
Proof.
  unfold task_count_next, exhausted, yield, fail.
  destruct (count tc =? 0); cbn [andb]; [|discriminate].
  destruct (Ascii.eqb (at_offset (task_count_str tc) (cur_ptr tc)) NUL);
    cbn [negb]; [discriminate|].
  repeat (case_if; cbn beta iota zeta); try discriminate;
    intros [= <- <- <-]; eauto.
Qed.

(** A call that writes no diagnostic either finds the decoder exhausted,
    returns -1 and changes nothing, or returns the value of the entry that
    is active after it. *)
Lemma next_silent :
  task_count_next tc = (r, tc', None) ->
  if exhausted tc then r = -1 /\ tc' = tc else r = value tc'.
Proof.
  unfold task_count_next, exhausted, yield, fail.
  destruct (count tc =? 0); cbn [andb]; [|intros [= <- <-]; reflexivity].
  destruct (Ascii.eqb (at_offset (task_count_str tc) (cur_ptr tc)) NUL);
    cbn [negb]; [intros [= <- <-]; split; reflexivity|].
  repeat (case_if; cbn beta iota zeta); try discriminate;
    intros [= <- <-]; reflexivity.
Qed.

End Outcomes.

(** C8, as the code has it.  [task_count_next] returns an [int] and
    nothing else: -1 for a parse error and -1 again for exhaustion.  The two
    differ in the diagnostic only: a parse error writes one (about the
    string being decoded) and happens before the end of the string;
    exhaustion writes none and leaves the decoder untouched.  A call that
    writes no diagnostic on a decoder that is not exhausted returns the
    value of the active entry. *)
Theorem next_outcomes (tc : task_count_t) :
  let '(r, tc', d) := task_count_next tc in
  match d with
  | Some m =>
      r = -1 /\ exhausted tc = false
      /\ exists k off, m = DecodeError k off (task_count_str tc)
  | None =>
      if exhausted tc then r = -1 /\ tc' = tc else r = value tc'
  end.
Proof.
  destruct (task_count_next tc) as [[r tc'] [m|]] eqn:Hnext.
  - exact (next_diagnostic tc tc' r m Hnext).
  - exact (next_silent tc tc' r Hnext).
Qed.

(** C8 fails as stated: the second call on "4" (exhaustion), the call on
    "4x" (a parse error) and the call on "-1" (a decoded value) all return
    the same [int], so the value returned does not tell them apart. *)
Lemma next_minus_one_is_ambiguous :
  let after_4 := snd (fst (task_count_next (task_count_init (lit "4")))) in
  let on_end := task_count_next after_4 in
  let on_error := task_count_next (task_count_init (lit "4x")) in
  let on_value := task_count_next (task_count_init (lit "-1")) in
  fst (fst on_end) = -1 /\ fst (fst on_error) = -1 /\ fst (fst on_value) = -1
  /\ exhausted after_4 = true /\ snd on_end = None
  /\ snd on_error = Some (DecodeError UnexpectedCharacter 1 (lit "4x"))
  /\ snd on_value = None /\ value (snd (fst on_value)) = -1
  /\ cur_ptr (snd (fst on_value)) = 2%nat.
Proof. vm_compute. repeat split; reflexivity. Qed.

(** * The grammar of the specification and the decoder *)

Module Grammar.

(** [INT]: one or more decimal digits. *)
Definition INT (s : list ascii) : bool :=
  match s with
  | [] => false
  | _ :: _ => forallb isdigit s
  end.

(** The number an [INT] denotes, read the way [strtol] reads it. *)
Definition number (s : list ascii) : Z := fst (digits s 0).

(** [entry = INT | INT '(x' INT ')']. *)
Record RunLengthEntry : Type := mk_entry {
  value_text : list ascii;
  repeat_text : option (list ascii)
}.

Definition entry_text (e : RunLengthEntry) : list ascii :=
  match repeat_text e with
  | None => value_text e
  | Some r => value_text e ++ lit "(x" ++ r ++ lit ")"
  end.

(** [entry (',' entry)*]. *)
Fixpoint spec_text (es : list RunLengthEntry) : list ascii :=
  match es with
  | [] => []
  | e :: es' =>
      match es' with
      | [] => entry_text e
      | _ :: _ => entry_text e ++ lit "," ++ spec_text es'
      end
  end.

Definition entry_syntax (e : RunLengthEntry) : bool :=
  INT (value_text e)
  && match repeat_text e with None => true | Some r => INT r end.

(** A string of the grammar. *)
Definition matches (s : list ascii) : Prop :=
  exists es, es <> [] /\ forallb entry_syntax es = true /\ s = spec_text es.

(** The repeat count of an entry is at least 1 and fits an [int]. *)
Definition repeat_in_range (e : RunLengthEntry) : bool :=
  match repeat_text e with
  | None => true
  | Some r => (1 <=? number r) && (number r <=? INT_MAX)
  end.

(** The value of an entry fits an [int]. *)
Definition value_in_range (e : RunLengthEntry) : bool :=
  number (value_text e) <=? INT_MAX.

(** The repeat count of an entry is at least 1. *)
Definition repeat_positive (e : RunLengthEntry) : bool :=
  match repeat_text e with
  | None => true
  | Some r => 1 <=? number r
  end.

(** The value of an entry, the number its [INT] denotes, and its number of
    repetitions ([INT] alone is [INT(x1)]). *)
Definition entry_value (e : RunLengthEntry) : Z := number (value_text e).

Definition entry_repeat (e : RunLengthEntry) : nat :=
  match repeat_text e with
  | None => 1%nat
  | Some r => Z.to_nat (number r)
  end.

(** The counts a sequence of entries stands for. *)
Definition expansion (es : list RunLengthEntry) : list Z :=
  flat_map (fun e => repeat (entry_value e) (entry_repeat e)) es.

(** The string is decoded to exhaustion without a parse error: some
    number of calls writes no diagnostic and leaves the decoder
    exhausted. *)
Definition decodes_cleanly (s : list ascii) (vs : list Z) : Prop :=
  exists tc, next_calls (length vs) (task_count_init s) = (vs, [], tc)
             /\ exhausted tc = true.

(** A string without white space, sign or NUL: its integers are written
    as the grammar writes them, with digits only. *)
Definition unsigned_char (c : ascii) : bool :=
  negb (isspace c || (Ascii.eqb c "-" || Ascii.eqb c "+") || Ascii.eqb c NUL).

Definition unsigned_text (s : list ascii) : bool := forallb unsigned_char s.

(** A string of the grammar, or such a string followed by one comma, with
    repeat counts of at least 1. *)
Definition matches_with_comma (s : list ascii) : Prop :=
  exists es trail,
    es <> [] /\ forallb entry_syntax es = true
    /\ forallb repeat_positive es = true
    /\ (trail = [] \/ trail = [","%char])
    /\ s = spec_text es ++ trail.

End Grammar.

(** The value of an entry as the decoder stores it: what [strtol] returns
    for its digits, converted to [int]; and the values that the calls return
    for a sequence of entries. *)
Definition stored_value (e : Grammar.RunLengthEntry) : Z :=
  to_int (clamp_long (Grammar.number (Grammar.value_text e))).

Definition stored_expansion (es : list Grammar.RunLengthEntry) : list Z :=
  flat_map (fun e => repeat (stored_value e) (Grammar.entry_repeat e)) es.

Section GrammarDecoding.

Import Grammar.

Lemma isdigit_class (c : ascii) :
  isdigit c = true ->
  isspace c = false /\ Ascii.eqb c "-" || Ascii.eqb c "+" = false
  /\ Ascii.eqb c "-" = false /\ Ascii.eqb c NUL = false
  /\ Ascii.eqb c "(" = false /\ Ascii.eqb c "," = false.
Proof.
  destruct c as [[] [] [] [] [] [] [] []]; vm_compute;
    intros H; try discriminate H; repeat split.
Qed.

Lemma digits_app (v rest : list ascii) (acc : Z) :
  forallb isdigit v = true -> isdigit (deref rest) = false ->
  digits (v ++ rest) acc = (fst (digits v acc), length v).
Proof.
  revert acc. induction v as [|c v IH]; intros acc Hv Hr.
  - destruct rest as [|r rest]; simpl in *; [reflexivity|].
    rewrite Hr. reflexivity.
  - simpl in Hv. apply andb_prop in Hv. destruct Hv as [Hc Hv].
    cbn [app digits]. rewrite Hc.
    rewrite (IH _ Hv Hr).
    destruct (digits v (acc * 10 + digit_value c)). reflexivity.
Qed.

(** [strtol] at an [INT] that is followed by something other than a digit
    reads the whole [INT]. *)
Lemma strtol_INT (v rest : list ascii) :
  INT v = true -> isdigit (deref rest) = false ->
  strtol (v ++ rest) = (clamp_long (number v), length v).
Proof.
  intros Hv Hr. destruct v as [|c v]; [discriminate|].
  cbn [INT] in Hv.
  assert (Hc : isdigit c = true)
    by (simpl in Hv; apply andb_prop in Hv; tauto).
  destruct (isdigit_class c Hc) as (Hs & Hg & Hm & _).
  unfold strtol. cbn [app skip_space]. rewrite Hs.
  cbn [skipn sign_length is_negative]. rewrite Hg, Hm.
  cbn [skipn]. change (c :: v ++ rest) with ((c :: v) ++ rest).
  rewrite (digits_app (c :: v) rest 0 Hv Hr).
  reflexivity.
Qed.

Lemma skipn_past (s a b : list ascii) (p : nat) :
  skipn p s = a ++ b -> skipn (p + length a) s = b.
Proof.
  intros H. rewrite Nat.add_comm, <- skipn_skipn, H.
  rewrite skipn_app, skipn_all, Nat.sub_diag. reflexivity.
Qed.

Lemma skipn_S (s : list ascii) (p : nat) (c : ascii) (b : list ascii) :
  skipn p s = c :: b -> skipn (S p) s = b.
Proof.
  intros H. apply (skipn_past s [c] b) in H. simpl in H.
  rewrite Nat.add_1_r in H. exact H.
Qed.

Lemma at_here (s : list ascii) (p : nat) (b : list ascii) :
  skipn p s = b -> at_offset s p = deref b.
Proof. intros H. rewrite at_offset_skipn, H. reflexivity. Qed.

(** Calls in sequence. *)
Lemma next_calls_app (a b : nat) (tc : task_count_t) :
  next_calls (a + b) tc =
    let '(vs1, ds1, tc1) := next_calls a tc in
    let '(vs2, ds2, tc2) := next_calls b tc1 in
    (vs1 ++ vs2, ds1 ++ ds2, tc2).
Proof.
  revert tc. induction a as [|a IH]; intros tc; cbn [Nat.add next_calls].
  - destruct (next_calls b tc) as [[vs ds] tc2]. reflexivity.
  - destruct (task_count_next tc) as [[v tc1] d]. rewrite IH.
    destruct (next_calls a tc1) as [[vs1 ds1] tc2].
    destruct (next_calls b tc2) as [[vs2 ds2] tc3].
    destruct d; reflexivity.
Qed.

(** With [k] repetitions of the active entry left, [k] calls return its
    value [k] times and leave no entry active. *)
Lemma next_calls_active (k : nat) (tc : task_count_t) :
  count tc = Z.of_nat k -> Z.of_nat k <= INT_MAX ->
  next_calls k tc = (repeat (value tc) k, [], set_count tc 0).
Proof.
  revert tc. induction k as [|k IH]; intros tc Hc Hk.
  - simpl. destruct tc; simpl in *; subst. reflexivity.
  - cbn [next_calls]. rewrite next_active by lia. unfold yield.
    rewrite to_int_small by (unfold INT_MAX in *; lia).
    rewrite IH; simpl; try lia.
    reflexivity.
Qed.

End GrammarDecoding.

Section EntryDecoding.

Import Grammar.

Variable tc : task_count_t.
Variable e : RunLengthEntry.
Variable tail : list ascii.

Hypothesis no_entry_active : count tc = 0.
Hypothesis syntax_ok : entry_syntax e = true.
Hypothesis range_ok : repeat_in_range e = true.
Hypothesis at_cursor :
  skipn (cur_ptr tc) (task_count_str tc) = entry_text e ++ tail.
Hypothesis tail_shape : tail = [] \/ exists t, tail = ","%char :: t.

Let tail_facts :
  isdigit (deref tail) = false /\ Ascii.eqb (deref tail) "(" = false
  /\ (tail = [] -> Ascii.eqb (deref tail) "," = false
                   /\ Ascii.eqb (deref tail) NUL = true)
  /\ (tail <> [] -> Ascii.eqb (deref tail) "," = true
                    /\ Ascii.eqb (deref tail) NUL = false).
Proof.
  destruct tail_shape as [-> | [t ->]]; repeat split; try reflexivity;
    try congruence; intros; discriminate.
Qed.

(** The call that parses an entry at the cursor: it returns the value of
    the entry, keeps the remaining repetitions, and moves the cursor past
    the entry and the comma after it. *)
Lemma next_entry :
  exists tc',
    task_count_next tc = (stored_value e, tc', None)
    /\ count tc' = Z.of_nat (entry_repeat e) - 1
    /\ 1 <= Z.of_nat (entry_repeat e) <= INT_MAX
    /\ value tc' = stored_value e
    /\ task_count_str tc' = task_count_str tc
    /\ skipn (cur_ptr tc') (task_count_str tc) = tl tail.
Proof.
  destruct tail_facts as (Htd & Htp & Hnil & Hcons).
  destruct e as [v [r|]]; unfold entry_syntax, repeat_in_range, entry_text,
    stored_value, entry_repeat in *; cbn [value_text repeat_text] in *.
  - (* INT '(x' INT ')' *)
    apply andb_prop in syntax_ok. destruct syntax_ok as [Hv Hr].
    apply andb_prop in range_ok. destruct range_ok as [Hlo Hhi].
    apply Z.leb_le in Hlo, Hhi.
    assert (Hs0 : skipn (cur_ptr tc) (task_count_str tc)
                  = v ++ "("%char :: "x"%char :: r ++ ")"%char :: tail).
    { rewrite at_cursor, <- !app_assoc. reflexivity. }
    pose proof (skipn_past _ _ _ _ Hs0) as Hs1.
    pose proof (skipn_S _ _ _ _ Hs1) as Hs2.
    pose proof (skipn_S _ _ _ _ Hs2) as Hs3.
    pose proof (skipn_past _ _ _ _ Hs3) as Hs4.
    pose proof (skipn_S _ _ _ _ Hs4) as Hs5.
    assert (Hhead : Ascii.eqb (at_offset (task_count_str tc) (cur_ptr tc)) NUL
                    = false).
    { rewrite (at_here _ _ _ Hs0). destruct v as [|c v]; [discriminate|].
      simpl in Hv. apply andb_prop in Hv. destruct Hv as [Hc _].
      apply isdigit_class in Hc. simpl. tauto. }
    assert (Hlen_v : (0 <? length v)%nat = true)
      by (destruct v; [discriminate | reflexivity]).
    assert (Hlen_r : (0 <? length r)%nat = true)
      by (destruct r; [discriminate | reflexivity]).
    assert (Hclamp : clamp_long (number r) = number r).
    { unfold clamp_long, LONG_MIN, LONG_MAX, INT_MAX in *.
      destruct (Z.ltb_spec (number r) (-9223372036854775808)); [lia|].
      destruct (Z.ltb_spec 9223372036854775807 (number r)); [lia|].
      reflexivity. }
    unfold task_count_next.
    rewrite no_entry_active, Hhead, Hs0, strtol_INT by (assumption || reflexivity).
    cbn beta iota zeta delta [negb Z.eqb].
    rewrite Hlen_v, (at_here _ _ _ Hs1), (at_here _ _ _ Hs2), Hs3.
    cbn [deref hd Ascii.eqb Bool.eqb].
    rewrite strtol_INT by (assumption || reflexivity).
    cbn beta iota zeta. rewrite Hclamp, Hlen_r.
    replace (0 <? number r) with true by (symmetry; apply Z.ltb_lt; lia).
    cbn [andb].
    rewrite (at_here _ _ _ Hs4), (at_here _ _ _ Hs5).
    cbn [deref hd Ascii.eqb Bool.eqb andb].
    rewrite (to_int_small (number r)) by (unfold INT_MAX in *; lia).
    destruct tail_shape as [Ht | [t Ht]].
    + destruct (Hnil Ht) as [Hc Hn]. rewrite Hc, Hn. cbn [orb negb].
      eexists. split; [reflexivity|]. unfold yield, set_count, set_cur_ptr,
        set_value; cbn [count value task_count_str cur_ptr].
      rewrite to_int_small by (unfold INT_MAX in *; lia).
      rewrite Hs5, Ht, Z2Nat.id by lia. repeat split; try lia.
    + assert (Hne : tail <> []) by (rewrite Ht; discriminate).
      destruct (Hcons Hne) as [Hc Hn]. rewrite Hc, Hn. cbn [orb negb].
      eexists. split; [reflexivity|]. unfold yield, set_count, set_cur_ptr,
        set_value; cbn [count value task_count_str cur_ptr].
      rewrite to_int_small by (unfold INT_MAX in *; lia).
      rewrite Ht in Hs5. rewrite (skipn_S _ _ _ _ Hs5), Ht, Z2Nat.id by lia.
      repeat split; try lia.
  - (* INT *)
    rewrite andb_true_r in syntax_ok.
    pose proof (skipn_past _ _ _ _ at_cursor) as Hs1.
    assert (Hhead : Ascii.eqb (at_offset (task_count_str tc) (cur_ptr tc)) NUL
                    = false).
    { rewrite (at_here _ _ _ at_cursor). destruct v as [|c v]; [discriminate|].
      simpl in syntax_ok. apply andb_prop in syntax_ok.
      destruct syntax_ok as [Hc _].
      apply isdigit_class in Hc. simpl. tauto. }
    assert (Hlen_v : (0 <? length v)%nat = true)
      by (destruct v; [discriminate | reflexivity]).
    unfold task_count_next.
    rewrite no_entry_active, Hhead, at_cursor, strtol_INT by assumption.
    cbn beta iota zeta delta [negb Z.eqb].
    rewrite Hlen_v, (at_here _ _ _ Hs1), Htp.
    destruct tail_shape as [Ht | [t Ht]].
    + destruct (Hnil Ht) as [Hc Hn]. rewrite Hc, Hn.
      eexists. split; [reflexivity|]. unfold yield, set_count, set_cur_ptr,
        set_value; cbn [count value task_count_str cur_ptr].
      rewrite Hs1, Ht. unfold INT_MAX. repeat split; try lia; reflexivity.
    + assert (Hne : tail <> []) by (rewrite Ht; discriminate).
      destruct (Hcons Hne) as [Hc Hn]. rewrite Hc.
      eexists. split; [reflexivity|]. unfold yield, set_count, set_cur_ptr,
        set_value; cbn [count value task_count_str cur_ptr].
      rewrite Ht in Hs1. rewrite (skipn_S _ _ _ _ Hs1), Ht.
      unfold INT_MAX. repeat split; try lia; reflexivity.
Qed.

End EntryDecoding.

Section SpecDecoding.

Import Grammar.

(** All the calls that an entry at the cursor answers. *)
Lemma entry_calls (tc : task_count_t) (e : RunLengthEntry) (tail : list ascii) :
  count tc = 0 -> entry_syntax e = true -> repeat_in_range e = true ->
  skipn (cur_ptr tc) (task_count_str tc) = entry_text e ++ tail ->
  (tail = [] \/ exists t, tail = ","%char :: t) ->
  exists tc',
    next_calls (entry_repeat e) tc
    = (repeat (stored_value e) (entry_repeat e), [], tc')
    /\ count tc' = 0
    /\ task_count_str tc' = task_count_str tc
    /\ skipn (cur_ptr tc') (task_count_str tc') = tl tail.
Proof.
  intros Hc Hs Hr Hat Ht.
  destruct (next_entry tc e tail Hc Hs Hr Hat Ht)
    as (tc1 & Hnext & Hcount & Hrange & Hval & Hstr & Hcur).
  destruct (entry_repeat e) as [|k] eqn:Hk; [lia|].
  cbn [next_calls]. rewrite Hnext.
  rewrite (next_calls_active k tc1) by lia.
  exists (set_count tc1 0). rewrite Hval. cbn [repeat].
  repeat split; try reflexivity.
  - simpl. exact Hstr.
  - simpl. rewrite Hstr. exact Hcur.
Qed.

(** What is left at the cursor between two entries. *)
Definition pending (es : list RunLengthEntry) (trail : list ascii) : list ascii :=
  match es with
  | [] => []
  | _ :: _ => spec_text es ++ trail
  end.

Lemma decode_pending (trail : list ascii) (es : list RunLengthEntry) :
  (trail = [] \/ trail = [","%char]) ->
  forallb entry_syntax es = true -> forallb repeat_in_range es = true ->
  forall tc, count tc = 0 ->
    skipn (cur_ptr tc) (task_count_str tc) = pending es trail ->
    exists tc',
      next_calls (length (stored_expansion es)) tc
      = (stored_expansion es, [], tc')
      /\ exhausted tc' = true.
Proof.
  intros Htrail. induction es as [|e es IH]; intros Hs Hr tc Hc Hat.
  - exists tc. split; [reflexivity|].
    unfold exhausted. rewrite Hc, (at_here _ _ _ Hat). reflexivity.
  - cbn [forallb] in Hs, Hr.
    apply andb_prop in Hs. destruct Hs as [Hs Hss].
    apply andb_prop in Hr. destruct Hr as [Hr Hrs].
    assert (Hshape : exists tail,
               pending (e :: es) trail = entry_text e ++ tail
               /\ (tail = [] \/ exists t, tail = ","%char :: t)
               /\ tl tail = pending es trail).
    { destruct es as [|e' es].
      - exists trail. cbn [pending spec_text].
        destruct Htrail as [-> | ->]; repeat split; eauto.
      - exists (","%char :: spec_text (e' :: es) ++ trail).
        split; [|split; [right; eauto | reflexivity]].
        cbn [pending]. change (spec_text (e :: e' :: es))
          with (entry_text e ++ lit "," ++ spec_text (e' :: es)).
        rewrite <- !app_assoc. reflexivity. }
    destruct Hshape as (tail & Htext & Htail & Hrest).
    rewrite Htext in Hat.
    destruct (entry_calls tc e tail Hc Hs Hr Hat Htail)
      as (tc1 & Hcalls & Hc1 & Hstr1 & Hcur1).
    rewrite Hrest in Hcur1.
    destruct (IH Hss Hrs tc1 Hc1 Hcur1) as (tc2 & Hcalls2 & Hexh).
    exists tc2. split; [|exact Hexh].
    cbn [stored_expansion flat_map]. fold (stored_expansion es).
    rewrite length_app, repeat_length, next_calls_app, Hcalls, Hcalls2.
    reflexivity.
Qed.

End SpecDecoding.

Section GrammarShape.

Import Grammar.

(** The character a string ends with is a digit or a closing parenthesis. *)
Definition closes (s : list ascii) : bool :=
  match s with
  | [] => false
  | _ :: _ => isdigit (last s NUL) || Ascii.eqb (last s NUL) ")"
  end.

Lemma last_app_cons (a b : list ascii) (c d : ascii) :
  last (a ++ c :: b) d = last (c :: b) d.
Proof.
  induction a as [|x a IH]; [reflexivity|].
  cbn [app]. rewrite <- IH.
  destruct (a ++ c :: b) eqn:E; [|reflexivity].
  destruct a; discriminate.
Qed.

Lemma closes_app (a b : list ascii) : closes b = true -> closes (a ++ b) = true.
Proof.
  destruct b as [|c b]; [discriminate|]. intros H.
  unfold closes in *. rewrite last_app_cons.
  destruct (a ++ c :: b) eqn:E; [destruct a; discriminate | exact H].
Qed.

Lemma INT_closes (v : list ascii) : INT v = true -> closes v = true.
Proof.
  destruct v as [|c v]; [discriminate|]. unfold INT, closes.
  revert c. induction v as [|x v IH]; intros c H.
  - simpl in *. rewrite andb_true_r in H. rewrite H. reflexivity.
  - cbn [forallb] in H. apply andb_prop in H. destruct H as [_ H].
    change (last (c :: x :: v) NUL) with (last (x :: v) NUL).
    apply IH. exact H.
Qed.

Lemma entry_closes (e : RunLengthEntry) :
  entry_syntax e = true -> closes (entry_text e) = true.
Proof.
  destruct e as [v [r|]]; unfold entry_syntax, entry_text;
    cbn [value_text repeat_text]; intros H;
    apply andb_prop in H; destruct H as [Hv Hr].
  - apply closes_app, closes_app, closes_app. reflexivity.
  - apply INT_closes. exact Hv.
Qed.

Lemma spec_closes (es : list RunLengthEntry) :
  es <> [] -> forallb entry_syntax es = true -> closes (spec_text es) = true.
Proof.
  induction es as [|e es IH]; [contradiction|]. intros _ H.
  cbn [forallb] in H. apply andb_prop in H. destruct H as [He Hes].
  destruct es as [|e' es].
  - apply entry_closes. exact He.
  - change (spec_text (e :: e' :: es))
      with (entry_text e ++ lit "," ++ spec_text (e' :: es)).
    apply closes_app, closes_app, IH; [discriminate | exact Hes].
Qed.

End GrammarShape.

(** C9 fails as stated: "4," is not a string of the grammar, and it is
    decoded to exhaustion without a parse error all the same. *)
Lemma trailing_comma_is_decoded :
  ~ Grammar.matches (lit "4,")
  /\ Grammar.decodes_cleanly (lit "4,") [4].
Proof.
  split.
  - intros (es & Hne & Hs & Heq).
    pose proof (spec_closes es Hne Hs) as Hc.
    rewrite <- Heq in Hc. discriminate Hc.
  - eexists. split; reflexivity.
Qed.

(** * Properties of the line formatter *)

Section FormatterEquations.

(** The loop over ["%["], one iteration unfolded. *)
Lemma delimited_count_step (s : list ascii) :
  delimited_count s =
    match strstr s (lit "%[") with
    | None => false
    | Some p =>
        let q := snd (scan_delim (skipn 2 p)) in
        if Ascii.eqb (deref q) "]" then
          if Ascii.eqb (deref (tl q)) "c" || Ascii.eqb (deref (tl q)) "C"
          then true
          else delimited_count (tl q)
        else delimited_count q
    end.
Proof.
  funelim (delimited_count s);
    match goal with E : strstr _ _ = _ |- _ => rewrite E end; reflexivity.
Qed.

Lemma put_nil (r : list ascii * option (list ascii)) : put [] r = r.
Proof. destruct r; reflexivity. Qed.

(** A character of a delimiter: anything but the closing bracket (and the
    NUL that no C string holds). *)
Definition delimiter_char (c : ascii) : bool :=
  negb (Ascii.eqb c NUL || Ascii.eqb c "]").

Definition delimiter_text (d : list ascii) : bool := forallb delimiter_char d.

Lemma scan_delim_closed (d rest : list ascii) :
  delimiter_text d = true ->
  scan_delim (d ++ "]"%char :: rest) = (d, "]"%char :: rest).
Proof.
  induction d as [|c d IH]; intros H; [reflexivity|].
  cbn [delimiter_text forallb] in H. apply andb_prop in H.
  destruct H as [Hc Hd]. unfold delimiter_char in Hc.
  apply negb_true_iff in Hc. cbn [app scan_delim]. rewrite Hc, (IH Hd).
  reflexivity.
Qed.

Lemma scan_delim_open (d : list ascii) :
  delimiter_text d = true -> scan_delim d = (d, []) /\ c_str d = d.
Proof.
  induction d as [|c d IH]; intros H; [split; reflexivity|].
  cbn [delimiter_text forallb] in H. apply andb_prop in H.
  destruct H as [Hc Hd]. unfold delimiter_char in Hc.
  apply negb_true_iff in Hc. destruct (IH Hd) as [Hs Hstr].
  cbn [scan_delim c_str]. rewrite Hc, Hs, Hstr.
  apply orb_false_elim in Hc. destruct Hc as [-> _]. split; reflexivity.
Qed.

End FormatterEquations.

Section Tokens.

Variable node_name : list ascii.
Variable task_count : Z.

Local Abbreviation render := (render_line node_name task_count).

Lemma render_literal (c : ascii) (p : list ascii) :
  Ascii.eqb c NUL = false -> Ascii.eqb c "%" = false ->
  render (c :: p) = put [c] (render p).
Proof.
  intros Hn Hp. rewrite render_line_equation_2, Hn, Hp. reflexivity.
Qed.

Lemma render_percent (p : list ascii) :
  render ("%"%char :: "%"%char :: p) = put ["%"%char] (render p).
Proof. rewrite render_line_equation_2. reflexivity. Qed.

Lemma render_host (p : list ascii) :
  render ("%"%char :: "h"%char :: p) = put (c_str node_name) (render p).
Proof. rewrite render_line_equation_2. reflexivity. Qed.

Lemma render_count (p : list ascii) :
  render ("%"%char :: "c"%char :: p) = put (decimal task_count) (render p).
Proof. rewrite render_line_equation_2. reflexivity. Qed.

Lemma render_optional_count (p : list ascii) :
  render ("%"%char :: "C"%char :: p) =
    if task_count <=? 1 then render p
    else put (decimal task_count) (render p).
Proof.
  rewrite render_line_equation_2. cbn [Ascii.eqb Bool.eqb NUL deref hd tl andb orb].
  destruct (task_count <=? 1); reflexivity.
Qed.

(** The token [%[d]x]: the characters of [d] and the count for [x] a count
    letter, nothing for any other [x]. *)
Lemma render_delimited (d : list ascii) (x : ascii) (p : list ascii) :
  delimiter_text d = true ->
  render ("%"%char :: "["%char :: d ++ "]"%char :: x :: p) =
    if Ascii.eqb x "C" && (task_count <=? 1) then render p
    else if Ascii.eqb x "C" || Ascii.eqb x "c"
         then put (d ++ decimal task_count) (render p)
    else if Ascii.eqb x NUL then ([], None)
    else render p.
Proof.
  intros Hd. rewrite render_line_equation_2.
  cbn [Ascii.eqb Bool.eqb NUL deref hd tl andb orb].
  cbv zeta. rewrite (scan_delim_closed d (x :: p) Hd).
  reflexivity.
Qed.

(** An opening bracket that is never closed ends the line in the error,
    with every character after the bracket as the reported string. *)
Lemma render_unterminated (d : list ascii) :
  delimiter_text d = true ->
  render ("%"%char :: "["%char :: d) = ([], Some d).
Proof.
  intros Hd. rewrite render_line_equation_2.
  cbn [Ascii.eqb Bool.eqb NUL deref hd tl andb orb]. cbv zeta.
  destruct (scan_delim_open d Hd) as [-> ->]. reflexivity.
Qed.

End Tokens.

(** C5. In the single-pass rendering the tokens [%C] and [%[d]C] expand to
    the decimal task count, after the characters of [d] in the second form,
    when the count is above 1, and to nothing at all when it is 1 or less;
    the default format gives "n001:3" and a newline for host "n001" at
    count 3, and "n001" and a newline at count 1. *)
Theorem optional_count_tokens (node_name d rest : list ascii) (task_count : Z) :
  delimiter_text d = true ->
  render_line node_name task_count (lit "%C" ++ rest)
  = (if task_count <=? 1 then render_line node_name task_count rest
     else put (decimal task_count) (render_line node_name task_count rest))
  /\ render_line node_name task_count (lit "%[" ++ d ++ lit "]C" ++ rest)
     = (if task_count <=? 1 then render_line node_name task_count rest
        else put (d ++ decimal task_count)
                 (render_line node_name task_count rest))
  /\ host_lines (has_count (lit "%h%[:]C")) false (lit "%h%[:]C") (lit "n001") 3
     = (lit "n001:3" ++ [newline], None)
  /\ host_lines (has_count (lit "%h%[:]C")) false (lit "%h%[:]C") (lit "n001") 1
     = (lit "n001" ++ [newline], None).
Proof.
  intros Hd. split; [|split; [|split; reflexivity]].
  - apply render_optional_count.
  - change (lit "%[" ++ d ++ lit "]C" ++ rest)
      with ("%"%char :: "["%char :: d ++ "]"%char :: "C"%char :: rest).
    rewrite (render_delimited node_name task_count d "C" rest Hd).
    cbn [Ascii.eqb Bool.eqb andb orb].
    destruct (task_count <=? 1); reflexivity.
Qed.

Lemma optional_count_tokens_witness :
  render_line (lit "n001") 3 (lit "%[:]C") = (lit ":3", None)
  /\ render_line (lit "n001") 1 (lit "%[:]C") = ([], None).
Proof.
  split.
  - exact (proj1 (proj2 (optional_count_tokens (lit "n001") (lit ":") [] 3
                           eq_refl))).
  - exact (proj1 (proj2 (optional_count_tokens (lit "n001") (lit ":") [] 1
                           eq_refl))).
Defined.

Section PlainTemplates.

Lemma strstr_none_tail (c : ascii) (s pat : list ascii) :
  Ascii.eqb c NUL = false ->
  strstr (c :: s) pat = None -> strstr s pat = None.
Proof.
  intros Hn. cbn [strstr]. rewrite Hn.
  destruct (starts_with pat (c :: s)); [discriminate | auto].
Qed.

(** A template without [%c], [%C] and [%[]: no token but [%%] and [%h]. *)
Definition plain_template (format : list ascii) : Prop :=
  strstr format (lit "%c") = None /\ strstr format (lit "%C") = None
  /\ strstr format (lit "%[") = None.

Lemma plain_template_tail (c : ascii) (s : list ascii) :
  Ascii.eqb c NUL = false -> plain_template (c :: s) -> plain_template s.
Proof.
  intros Hn (H1 & H2 & H3). repeat split; eapply strstr_none_tail; eauto.
Qed.

(** On such a template the two token loops write the same line. *)
Lemma render_plain (node_name : list ascii) (task_count : Z)
    (format : list ascii) :
  plain_template format ->
  render_line node_name task_count format = (plain_line node_name format, None).
Proof.
  assert (H : forall k fmt, (length fmt <= k)%nat -> plain_template fmt ->
            render_line node_name task_count fmt
            = (plain_line node_name fmt, None)).
  { induction k as [|k IH]; intros [|c p] Hk Hp;
      try (rewrite render_line_equation_1; reflexivity);
      [simpl in Hk; lia|].
    simpl in Hk. rewrite render_line_equation_2. cbn [plain_line].
    destruct (Ascii.eqb c NUL) eqn:Hn; [reflexivity|].
    pose proof (plain_template_tail c p Hn Hp) as Hp1.
    destruct (Ascii.eqb c "%") eqn:Hc.
    - apply Ascii.eqb_eq in Hc. subst c.
      destruct p as [|c1 p1]; [reflexivity|].
      cbn [deref hd tl]. simpl in Hk.
      destruct (Ascii.eqb c1 NUL) eqn:Hn1.
      { apply Ascii.eqb_eq in Hn1. subst c1. reflexivity. }
      pose proof (plain_template_tail c1 p1 Hn1 Hp1) as Hp2.
      destruct Hp as (Hc1 & Hc2 & Hc3). cbn [strstr lit] in Hc1, Hc2, Hc3.
      cbn in Hc1, Hc2, Hc3.
      destruct (Ascii.eqb c1 "%") eqn:E1.
      { rewrite (IH p1) by (assumption || lia). reflexivity. }
      destruct (Ascii.eqb c1 "h") eqn:E2.
      { rewrite (IH p1) by (assumption || lia). reflexivity. }
      destruct (Ascii.eqb c1 "C") eqn:E3.
      { apply Ascii.eqb_eq in E3. subst c1. discriminate Hc2. }
      destruct (Ascii.eqb c1 "c") eqn:E4.
      { apply Ascii.eqb_eq in E4. subst c1. discriminate Hc1. }
      destruct (Ascii.eqb c1 "[") eqn:E5.
      { apply Ascii.eqb_eq in E5. subst c1. discriminate Hc3. }
      cbn [andb orb]. apply IH; [lia | assumption].
    - rewrite (IH p) by (assumption || lia). reflexivity. }
  intros Hp. apply (H (length format)); [lia | assumption].
Qed.

End PlainTemplates.

Lemma has_count_false (format : list ascii) :
  has_count format = false ->
  strstr format (lit "%c") = None /\ strstr format (lit "%C") = None
  /\ delimited_count format = false.
Proof.
  unfold has_count.
  destruct (strstr format (lit "%c")); [discriminate|].
  destruct (strstr format (lit "%C")); [discriminate|].
  auto.
Qed.

(** C6. For a template classified as having no count token: without
    [no_repeats] the lines of a host are [task_count] copies of the template
    with only [%%] and [%h] substituted, each ended by a newline; with
    [no_repeats] there is one line, the single-pass rendering of the
    template and a newline, which is the same line as in repeat mode when
    the template has no ["%["]. *)
Theorem repeat_mode (node_name format : list ascii) (task_count : Z) :
  has_count format = false ->
  host_lines (has_count format) false format node_name task_count
  = (concat (repeat (plain_line node_name format ++ [newline])
                    (Z.to_nat task_count)), None)
  /\ (forall o, render_line node_name task_count format = (o, None) ->
        host_lines (has_count format) true format node_name task_count
        = (o ++ [newline], None))
  /\ (strstr format (lit "%[") = None ->
        host_lines (has_count format) true format node_name task_count
        = (plain_line node_name format ++ [newline], None)).
Proof.
  intros H. pose proof (has_count_false format H) as (Hc1 & Hc2 & _).
  rewrite H. unfold host_lines, repeat_lines. cbn [orb].
  split; [reflexivity|]. split.
  - intros o Ho. rewrite Ho. reflexivity.
  - intros Hb. rewrite render_plain by (repeat split; assumption).
    reflexivity.
Qed.

Lemma repeat_mode_witness :
  host_lines (has_count (lit "%h")) false (lit "%h") (lit "n001") 3
  = (lit "n001" ++ [newline] ++ lit "n001" ++ [newline]
     ++ lit "n001" ++ [newline], None)
  /\ host_lines (has_count (lit "%h")) true (lit "%h") (lit "n001") 3
     = (lit "n001" ++ [newline], None).
Proof.
  destruct (repeat_mode (lit "n001") (lit "%h") 3 eq_refl) as (H1 & _ & H3).
  split; [exact H1 | exact (H3 eq_refl)].
Defined.

(** * The loop over the hosts *)

Section HostLoop.

Variable has_count_flag no_repeats : bool.
Variable format : list ascii.

Local Abbreviation loop := (machinefile_loop has_count_flag no_repeats format).
Local Abbreviation lines := (host_lines has_count_flag no_repeats format).

(** A call that returns a positive count writes no diagnostic. *)
Lemma positive_is_silent (tc tc' : task_count_t) (v : Z) (d : option message) :
  task_count_next tc = (v, tc', d) -> 0 < v -> d = None.
Proof.
  intros H Hv. destruct d as [m|]; [|reflexivity].
  destruct (next_diagnostic tc tc' v m H) as [Hr _]. lia.
Qed.

(** The decoder stops the loop: it is exhausted or yields a value that is
    not positive, without a diagnostic. *)
Definition stops (tc : task_count_t) : Prop :=
  exists n tc', task_count_next tc = (n, tc', None) /\ n <= 0.

Lemma loop_truncated (hs1 hs2 : list (list ascii)) :
  forall (tc tc1 : task_count_t) (vs : list Z) (ds : list message),
    next_calls (length hs1) tc = (vs, ds, tc1) ->
    Forall (fun v => 0 < v) vs ->
    exited (loop hs1 tc) = None ->
    hs2 = [] \/ stops tc1 ->
    loop (hs1 ++ hs2) tc = loop hs1 tc
    /\ stderr (loop hs1 tc) = []
    /\ stdout (loop hs1 tc)
       = concat (map (fun hv => fst (lines (fst hv) (snd hv))) (combine hs1 vs)).
Proof.
  induction hs1 as [|h hs1' IH]; intros tc tc1 vs ds Hcalls Hpos Hex Hstop.
  - cbn [length next_calls] in Hcalls. injection Hcalls as <- <- <-.
    cbn [app]. split; [|split; reflexivity].
    destruct Hstop as [-> | (n & tc' & Hn & Hle)]; [reflexivity|].
    destruct hs2 as [|h2 hs2']; [reflexivity|].
    cbn [machinefile_loop]. rewrite Hn.
    destruct (Z.leb_spec n 0); [reflexivity | lia].
  - cbn [length next_calls] in Hcalls.
    destruct (task_count_next tc) as [[v tc'] d] eqn:Hnext.
    destruct (next_calls (length hs1') tc') as [[vs' ds'] tc2] eqn:Hrest.
    assert (Hvs : vs = v :: vs' /\ tc2 = tc1)
      by (destruct d; injection Hcalls as <- _ <-; auto).
    destruct Hvs as [-> ->].
    inversion Hpos as [|? ? Hv Hpos']; subst.
    cbn [app machinefile_loop] in *. rewrite Hnext in *.
    destruct (Z.leb_spec v 0); [lia|].
    rewrite (positive_is_silent tc tc' v d Hnext Hv) in *.
    cbn [combine map concat fst snd].
    destruct (lines h v) as [o [delim|]]; [discriminate Hex|].
    cbn [exited write] in Hex.
    destruct (IH tc' tc1 vs' ds' Hrest Hpos' Hex Hstop) as (Heq & Herr & Hout).
    rewrite Heq. cbn [write stderr stdout fst]. rewrite Herr, Hout.
    repeat split; reflexivity.
Qed.

End HostLoop.

(** C4. When the decoder answers the first hosts with positive counts and
    their lines are written, and then the host sequence ends, or the decoder
    is exhausted or yields a value that is not positive, the run is the run
    over those first hosts alone: the output is the lines of those hosts in
    order, nothing is written for any remaining host, nothing is written to
    the error stream, and the run returns without [exit]. *)
Theorem truncation (format : list ascii) (no_repeats : bool)
    (hs1 hs2 : list (list ascii)) (tc tc1 : task_count_t) (vs : list Z)
    (ds : list message) :
  next_calls (length hs1) tc = (vs, ds, tc1) ->
  Forall (fun v => 0 < v) vs ->
  exited (print_machinefile hs1 tc format no_repeats) = None ->
  hs2 = [] \/ stops tc1 ->
  print_machinefile (hs1 ++ hs2) tc format no_repeats
  = {| stdout := concat (map (fun hv => fst (host_lines (has_count format)
                                no_repeats format (fst hv) (snd hv)))
                             (combine hs1 vs));
       stderr := []; exited := None |}.
Proof.
  intros Hcalls Hpos Hex Hstop. unfold print_machinefile in *.
  destruct (loop_truncated (has_count format) no_repeats format hs1 hs2
              tc tc1 vs ds Hcalls Hpos Hex Hstop) as (Heq & Herr & Hout).
  rewrite Heq.
  destruct (machinefile_loop _ _ _ hs1 tc) as [o e x].
  cbn [stdout stderr exited] in *. subst. reflexivity.
Qed.

Lemma truncation_witness :
  print_machinefile [lit "n000"; lit "n001"; lit "n002"]
    (task_count_init (lit "2,1")) (lit "%h%[:]C") false
  = {| stdout := lit "n000:2" ++ [newline] ++ lit "n001" ++ [newline];
       stderr := []; exited := None |}.
Proof.
  apply (truncation (lit "%h%[:]C") false [lit "n000"; lit "n001"]
           [lit "n002"] (task_count_init (lit "2,1"))
           {| task_count_str := lit "2,1"; cur_ptr := 3; value := 1;
              count := 0 |} [2; 1] []).
  - reflexivity.
  - repeat constructor.
  - reflexivity.
  - right. eexists. eexists. split; [reflexivity | lia].
Defined.

(** * Unterminated delimiters *)

(** A format made of whole tokens: literal characters, [%x] for [x] other
    than the opening bracket, and closed [%[d]x]. *)
Inductive whole_tokens : list ascii -> Prop :=
| wt_nil : whole_tokens []
| wt_literal (c : ascii) (p : list ascii) :
    Ascii.eqb c NUL = false -> Ascii.eqb c "%" = false ->
    whole_tokens p -> whole_tokens (c :: p)
| wt_token (x : ascii) (p : list ascii) :
    Ascii.eqb x NUL = false -> Ascii.eqb x "[" = false ->
    whole_tokens p -> whole_tokens ("%"%char :: x :: p)
| wt_delimited (d : list ascii) (x : ascii) (p : list ascii) :
    delimiter_text d = true -> Ascii.eqb x NUL = false ->
    whole_tokens p -> whole_tokens ("%"%char :: "["%char :: d ++ "]"%char :: x :: p).

Section WholeTokens.

Variable node_name : list ascii.
Variable task_count : Z.

Local Abbreviation render := (render_line node_name task_count).

Ltac put_leaves IH :=
  repeat match goal with
         | |- context [if ?b then _ else _] => destruct b
         end;
  rewrite ?IH; unfold put; cbn [fst snd]; rewrite ?app_assoc; reflexivity.

(** After whole tokens the rest of the format is rendered as it would be on
    its own. *)
Lemma render_whole_tokens (pre : list ascii) :
  whole_tokens pre ->
  forall rest, render (pre ++ rest) = put (fst (render pre)) (render rest).
Proof.
  induction 1 as [|c p Hn Hp _ IH|x p Hn Hb _ IH|d x p Hd Hn _ IH]; intros rest.
  - rewrite render_line_equation_1. cbn [app fst]. symmetry. apply put_nil.
  - cbn [app]. rewrite !render_literal by assumption. put_leaves IH.
  - cbn [app]. rewrite !render_line_equation_2.
    cbn [deref hd tl Ascii.eqb Bool.eqb NUL]. rewrite Hb, Hn.
    put_leaves IH.
  - change (("%"%char :: "["%char :: d ++ "]"%char :: x :: p) ++ rest)
      with ("%"%char :: "["%char :: (d ++ "]"%char :: x :: p) ++ rest).
    rewrite <- app_assoc. cbn [app].
    rewrite !render_delimited by assumption. rewrite Hn.
    put_leaves IH.
Qed.

End WholeTokens.

Section RepeatBranch.

Variable format : list ascii.

(** The repeat branch has no error of its own: the loop returns, and the
    error stream holds no invalid-delimiter diagnostic. *)
Lemma repeat_branch_returns (hosts : list (list ascii)) :
  forall tc,
    exited (machinefile_loop false false format hosts tc) = None
    /\ forall delim,
         ~ In (InvalidDelimiter delim)
              (stderr (machinefile_loop false false format hosts tc)).
Proof.
  induction hosts as [|h hosts IH]; intros tc; cbn [machinefile_loop].
  - split; [reflexivity | intros delim []].
  - destruct (task_count_next tc) as [[n tc'] d] eqn:Hnext.
    destruct (n <=? 0).
    + split; [reflexivity|]. intros delim Hin. cbn [stderr] in Hin.
      destruct d as [m|]; [|destruct Hin].
      destruct (next_diagnostic tc tc' n m Hnext) as (_ & _ & k & off & ->).
      destruct Hin as [Hin | []]. discriminate Hin.
    + unfold host_lines. cbn [orb write exited stderr]. apply IH.
Qed.

End RepeatBranch.

(** C3, as the code has it.  Take a format that, after whole tokens, has
    a ["%["] that no bracket closes.  The classification raises no error.
    When the single-pass branch is in use, there is a host, and the decoder
    answers it with a positive count, the error is met while that first
    host is rendered: what the tokens before the bracket give for that host
    is written, the invalid-delimiter diagnostic follows, and the process
    exits with [EINVAL], so the error occurs once whatever the number of
    hosts. *)
Theorem unterminated_delimiter (pre d node_name : list ascii)
    (the_hostlist : list (list ascii)) (tc tc' : task_count_t)
    (task_count : Z) (m : option message) (no_repeats : bool) :
  whole_tokens pre -> delimiter_text d = true ->
  task_count_next tc = (task_count, tc', m) -> 0 < task_count ->
  has_count (pre ++ lit "%[" ++ d) || no_repeats = true ->
  print_machinefile (node_name :: the_hostlist) tc (pre ++ lit "%[" ++ d)
    no_repeats
  = {| stdout := fst (render_line node_name task_count pre);
       stderr := [InvalidDelimiter d];
       exited := Some EINVAL |}.
Proof.
  intros Hpre Hd Hnext Hpos Hmode.
  unfold print_machinefile. cbn [machinefile_loop]. rewrite Hnext.
  destruct (Z.leb_spec task_count 0); [lia|].
  rewrite (positive_is_silent tc tc' task_count m Hnext Hpos).
  unfold host_lines. rewrite Hmode.
  rewrite (render_whole_tokens node_name task_count pre Hpre).
  change (lit "%[" ++ d) with ("%"%char :: "["%char :: d).
  rewrite (render_unterminated node_name task_count d Hd).
  unfold put. cbn [fst snd diagnostics app]. rewrite app_nil_r.
  reflexivity.
Qed.

Lemma unterminated_delimiter_witness :
  print_machinefile [lit "n001"; lit "n002"] (task_count_init (lit "3,3"))
    (lit "%h%[:") true
  = {| stdout := lit "n001"; stderr := [InvalidDelimiter (lit ":")];
       exited := Some EINVAL |}.
Proof.
  refine (unterminated_delimiter (lit "%h") (lit ":") (lit "n001")
            [lit "n002"] (task_count_init (lit "3,3"))
            {| task_count_str := lit "3,3"; cur_ptr := 2; value := 3;
               count := 0 |} 3 None true _ eq_refl eq_refl eq_refl eq_refl).
  apply wt_token; [reflexivity | reflexivity | apply wt_nil].
Defined.

(** C3 fails as stated.  With "%h%[:" and two hosts: under [no_repeats] the
    name of the first host is written before the error stops the run; and
    without [no_repeats] the repeat branch is taken, no error arises at all,
    and three lines are written for each host. *)
Lemma unterminated_delimiter_is_met_late :
  print_machinefile [lit "n001"; lit "n002"] (task_count_init (lit "3,3"))
    (lit "%h%[:") true
  = {| stdout := lit "n001"; stderr := [InvalidDelimiter (lit ":")];
       exited := Some EINVAL |}
  /\ print_machinefile [lit "n001"; lit "n002"] (task_count_init (lit "3,3"))
       (lit "%h%[:") false
     = {| stdout := concat (repeat (lit "n001:" ++ [newline]) 3)
                    ++ concat (repeat (lit "n002:" ++ [newline]) 3);
          stderr := []; exited := None |}.
Proof. split; vm_compute; reflexivity. Qed.

(** * Delimiters are taken as they come *)

Section Classification.

(** No NUL among the characters: what a C string holds. *)
Definition nul_free (s : list ascii) : bool :=
  forallb (fun c => negb (Ascii.eqb c NUL)) s.

(** [strstr] finds an occurrence at or before any place where the pattern
    stands. *)
Lemma strstr_found (pat x pre : list ascii) :
  nul_free pre = true -> starts_with pat x = true ->
  Ascii.eqb (deref x) NUL = false ->
  exists a pre',
    pre = a ++ pre'
    /\ strstr (pre ++ x) pat = Some (pre' ++ x)
    /\ starts_with pat (pre' ++ x) = true.
Proof.
  intros Hpre Hx Hn. induction pre as [|c pre IH].
  - exists [], []. cbn [app]. repeat split; [|exact Hx].
    destruct x as [|c x]; [discriminate Hn|].
    cbn [strstr]. cbn [deref hd] in Hn. rewrite Hn, Hx. reflexivity.
  - cbn [nul_free forallb] in Hpre. apply andb_prop in Hpre.
    destruct Hpre as [Hc Hpre]. apply negb_true_iff in Hc.
    cbn [app strstr]. rewrite Hc.
    destruct (starts_with pat (c :: pre ++ x)) eqn:Hs.
    + exists [], (c :: pre). repeat split. exact Hs.
    + destruct (IH Hpre) as (a & pre' & -> & Hfound & Hs').
      exists (c :: a), pre'. repeat split; assumption.
Qed.

(** Up to the first closing bracket, if there is one. *)
Lemma first_bracket (s : list ascii) :
  nul_free s = true ->
  delimiter_text s = true
  \/ exists u w, s = u ++ "]"%char :: w /\ delimiter_text u = true.
Proof.
  induction s as [|c s IH]; intros H; [left; reflexivity|].
  cbn [nul_free forallb] in H. apply andb_prop in H. destruct H as [Hc Hs].
  apply negb_true_iff in Hc.
  destruct (Ascii.eqb c "]") eqn:Hb.
  - apply Ascii.eqb_eq in Hb. subst c. right. exists [], s. split; reflexivity.
  - destruct (IH Hs) as [Hd | (u & w & -> & Hu)].
    + left. cbn [delimiter_text forallb]. unfold delimiter_char at 1.
      rewrite Hc, Hb. exact Hd.
    + right. exists (c :: u), w. split; [reflexivity|].
      cbn [delimiter_text forallb]. unfold delimiter_char at 1.
      rewrite Hc, Hb. exact Hu.
Qed.

Lemma delimiter_text_app (a b : list ascii) :
  delimiter_text a = true -> delimiter_text b = true ->
  delimiter_text (a ++ b) = true.
Proof.
  unfold delimiter_text. intros Ha Hb. rewrite forallb_app, Ha, Hb.
  reflexivity.
Qed.

Variable d rest : list ascii.
Variable x : ascii.
Hypothesis delimiter : delimiter_text d = true.
Hypothesis count_letter : Ascii.eqb x "c" || Ascii.eqb x "C" = true.

(** The loop over ["%["] reaches a delimited count token wherever it stands
    in the format. *)
Lemma delimited_count_found (pre : list ascii) :
  nul_free pre = true ->
  delimited_count (pre ++ "%"%char :: "["%char :: d ++ "]"%char :: x :: rest)
  = true.
Proof.
  assert (H : forall k pre, (length pre <= k)%nat -> nul_free pre = true ->
            delimited_count
              (pre ++ "%"%char :: "["%char :: d ++ "]"%char :: x :: rest)
            = true).
  { induction k as [|k IH]; intros p Hk Hp; rewrite delimited_count_step;
      destruct (strstr_found (lit "%[")
                  ("%"%char :: "["%char :: d ++ "]"%char :: x :: rest) p
                  Hp eq_refl eq_refl) as (a & pre' & -> & -> & Hs).
    all: destruct pre' as [|c1 [|c2 pre2]].
    all: try (cbn [app skipn]; cbv zeta;
              rewrite (scan_delim_closed d (x :: rest) delimiter);
              cbn [snd deref hd tl Ascii.eqb Bool.eqb];
              rewrite count_letter; reflexivity).
    all: try (cbn in Hs; rewrite andb_false_r in Hs; discriminate Hs).
    all: rewrite length_app in Hk; cbn [length] in Hk; try lia.
    unfold nul_free in Hp. rewrite forallb_app in Hp.
    apply andb_prop in Hp. destruct Hp as [_ Hp].
    cbn [forallb] in Hp. apply andb_prop in Hp. destruct Hp as [_ Hp].
    apply andb_prop in Hp. destruct Hp as [_ Hp].
    cbn [app skipn]. cbv zeta.
    destruct (first_bracket pre2 Hp) as [Hd | (u & w & -> & Hu)].
    - change (pre2 ++ "%"%char :: "["%char :: d ++ "]"%char :: x :: rest)
        with (pre2 ++ ("%"%char :: "["%char :: d) ++ "]"%char :: x :: rest).
      rewrite app_assoc, scan_delim_closed
        by (apply delimiter_text_app; [exact Hd | exact delimiter]).
      cbn [snd deref hd tl Ascii.eqb Bool.eqb].
      rewrite count_letter. reflexivity.
    - rewrite <- app_assoc. cbn [app].
      rewrite (scan_delim_closed u _ Hu).
      cbn [snd deref hd tl Ascii.eqb Bool.eqb].
      match goal with
      | |- (if ?b then _ else _) = _ => destruct b; [reflexivity|]
      end.
      apply IH.
      + rewrite length_app in Hk. cbn [length] in Hk. lia.
      + unfold nul_free in *. rewrite forallb_app in Hp.
        apply andb_prop in Hp. destruct Hp as [_ Hp].
        cbn [forallb] in Hp. apply andb_prop in Hp. tauto. }
  intros Hp. apply (H (length pre)); [lia | exact Hp].
Qed.

End Classification.

Lemma has_count_delimited (format : list ascii) :
  delimited_count format = true -> has_count format = true.
Proof.
  intros H. unfold has_count.
  destruct (strstr format (lit "%c")); [reflexivity|].
  destruct (strstr format (lit "%C")); [reflexivity | exact H].
Qed.

(** C10. The text between ["%["] and the closing bracket is not checked
    against any set of characters.  For every [d] without a closing bracket
    (and without the NUL that no C string holds), a format that holds
    [%[d]c] is classified as having a count token, and the token renders as
    the characters of [d] followed by the decimal task count; the empty
    delimiter is accepted, and [%[]c] renders as [%c] does. *)
Theorem delimiter_is_not_validated (d pre rest node_name : list ascii)
    (task_count : Z) :
  delimiter_text d = true -> nul_free pre = true ->
  has_count (pre ++ lit "%[" ++ d ++ lit "]c" ++ rest) = true
  /\ render_line node_name task_count (lit "%[" ++ d ++ lit "]c" ++ rest)
     = put (d ++ decimal task_count) (render_line node_name task_count rest)
  /\ has_count (pre ++ lit "%[]c" ++ rest) = true
  /\ render_line node_name task_count (lit "%[]c" ++ rest)
     = render_line node_name task_count (lit "%c" ++ rest).
Proof.
  intros Hd Hpre. repeat split.
  - apply has_count_delimited.
    apply (delimited_count_found d rest "c" Hd eq_refl pre Hpre).
  - apply (render_delimited node_name task_count d "c" rest Hd).
  - apply has_count_delimited.
    apply (delimited_count_found [] rest "c" eq_refl eq_refl pre Hpre).
  - change (lit "%[]c" ++ rest)
      with ("%"%char :: "["%char :: [] ++ "]"%char :: "c"%char :: rest).
    rewrite (render_delimited node_name task_count [] "c" rest eq_refl).
    cbn [app lit list_ascii_of_string]. rewrite render_count. reflexivity.
Qed.

Lemma delimiter_is_not_validated_witness :
  has_count (lit "%h%[ab=]c") = true
  /\ render_line (lit "n001") 3 (lit "%[ab=]c") = (lit "ab=3", None).
Proof.
  pose proof (delimiter_is_not_validated (lit "ab=") (lit "%h") []
                (lit "n001") 3 eq_refl eq_refl) as (H1 & H2 & _).
  split; [exact H1 | exact H2].
Defined.

(** C2 at "%%c".  The format holds no count token: its single-pass
    rendering is the two characters "%c" whatever the host and the count.
    The classification still answers [true], because [strstr] finds "%c"
    inside the escaped percent; so without [no_repeats] a host with three
    tasks gets one line where a format without a count token gets three. *)
Theorem escaped_percent_is_classified_as_count :
  has_count (lit "%%c") = true
  /\ (forall node_name task_count,
        render_line node_name task_count (lit "%%c") = (lit "%c", None))
  /\ print_machinefile [lit "n001"] (task_count_init (lit "3")) (lit "%%c") false
     = {| stdout := lit "%c" ++ [newline]; stderr := []; exited := None |}
  /\ repeat_lines (lit "n001") (lit "%%c") 3
     = lit "%c" ++ [newline] ++ lit "%c" ++ [newline] ++ lit "%c" ++ [newline].
Proof.
  split; [reflexivity|]. split; [|split; reflexivity].
  intros node_name task_count.
  change (lit "%%c") with ("%"%char :: "%"%char :: ["c"%char]).
  rewrite render_percent, render_literal by reflexivity.
  rewrite render_line_equation_1. reflexivity.
Qed.

(** * Further properties of the decoder *)

Section CursorBounds.

Lemma skip_space_length (s : list ascii) : (skip_space s <= length s)%nat.
Proof.
  induction s as [|c s IH]; simpl; [lia|].
  destruct (isspace c); simpl; lia.
Qed.

Lemma sign_length_length (s : list ascii) : (sign_length s <= length s)%nat.
Proof.
  destruct s as [|c s]; simpl; [lia|].
  destruct (Ascii.eqb c "-" || Ascii.eqb c "+"); simpl; lia.
Qed.

Lemma digits_length (s : list ascii) (acc : Z) :
  (snd (digits s acc) <= length s)%nat.
Proof.
  revert acc. induction s as [|c s IH]; intros acc; simpl; [lia|].
  destruct (isdigit c); simpl; [|lia].
  specialize (IH (acc * 10 + digit_value c)).
  destruct (digits s (acc * 10 + digit_value c)); simpl in *. lia.
Qed.

(** [strtol] leaves [endptr] inside the string. *)
Lemma strtol_length (s : list ascii) : (snd (strtol s) <= length s)%nat.
Proof.
  unfold strtol.
  pose proof (skip_space_length s) as Hw.
  pose proof (sign_length_length (skipn (skip_space s) s)) as Hg.
  pose proof (digits_length
                (skipn (sign_length (skipn (skip_space s) s))
                       (skipn (skip_space s) s)) 0) as Hd.
  rewrite !length_skipn in *.
  destruct (digits _ 0) as [v [|n]]; simpl in *; lia.
Qed.

(** A character other than NUL is read inside the string. *)
Lemma at_offset_inside (s : list ascii) (i : nat) :
  Ascii.eqb (at_offset s i) NUL = false -> (i < length s)%nat.
Proof.
  intros H. destruct (Nat.lt_ge_cases i (length s)) as [Hlt | Hge]; [exact Hlt|].
  unfold at_offset in H. rewrite nth_overflow in H by exact Hge.
  discriminate H.
Qed.

Lemma at_offset_is (s : list ascii) (i : nat) (c : ascii) :
  Ascii.eqb (at_offset s i) c = true -> Ascii.eqb c NUL = false ->
  (i < length s)%nat.
Proof.
  intros H Hc. apply Ascii.eqb_eq in H. apply at_offset_inside.
  rewrite H. exact Hc.
Qed.

End CursorBounds.

(** The cursor is inside the string or at its end. *)
Definition in_bounds (tc : task_count_t) : Prop :=
  (cur_ptr tc <= length (task_count_str tc))%nat.

Ltac done_with H :=
  injection H as _ <- _; simpl; repeat split; try reflexivity; lia.

(** A call never changes the string being decoded, never moves the cursor
    backwards, and never moves it past the end of the string. *)
Theorem cursor_stays_in_string (tc tc' : task_count_t) (r : Z)
    (d : option message) :
  task_count_next tc = (r, tc', d) -> in_bounds tc ->
  task_count_str tc' = task_count_str tc
  /\ (cur_ptr tc <= cur_ptr tc')%nat
  /\ in_bounds tc'.
Proof.
  unfold in_bounds, task_count_next, yield, fail. intros Hnext Hin.
  pose proof (strtol_length (skipn (cur_ptr tc) (task_count_str tc))) as Hn.
  rewrite length_skipn in Hn.
  destruct (count tc =? 0);
    [|done_with Hnext].
  destruct (Ascii.eqb (at_offset (task_count_str tc) (cur_ptr tc)) NUL);
    cbn [negb] in Hnext; [done_with Hnext|].
  destruct (strtol (skipn (cur_ptr tc) (task_count_str tc))) as [c n].
  cbn [snd] in Hn.
  destruct (0 <? n)%nat; [|done_with Hnext].
  destruct (Ascii.eqb (at_offset _ (cur_ptr tc + n)) "(") eqn:Hparen.
  - destruct (Ascii.eqb (at_offset _ (S (cur_ptr tc + n))) "x");
      [|done_with Hnext].
    destruct (strtol (skipn (S (S (cur_ptr tc + n))) (task_count_str tc)))
      as [c2 m].
    destruct ((0 <? c2) && (0 <? m)%nat);
      [|done_with Hnext].
    destruct (Ascii.eqb (at_offset _ (S (S (cur_ptr tc + n)) + m)) ")")
      eqn:Hclose; cbn [andb] in Hnext;
      [|done_with Hnext].
    apply at_offset_is in Hclose; [|reflexivity].
    destruct (_ || _) in Hnext; [|done_with Hnext].
    destruct (Ascii.eqb (at_offset _ (S (S (S (cur_ptr tc + n)) + m))) NUL)
      eqn:Hend; cbn [negb] in Hnext.
    + done_with Hnext.
    + apply at_offset_inside in Hend. done_with Hnext.
  - destruct (Ascii.eqb (at_offset _ (cur_ptr tc + n)) ",") eqn:Hcomma.
    + apply at_offset_is in Hcomma; [|reflexivity].
      done_with Hnext.
    + destruct (Ascii.eqb (at_offset _ (cur_ptr tc + n)) NUL);
        done_with Hnext.
Qed.

Lemma cursor_stays_in_string_witness :
  let tc := task_count_init (lit "4(x2),2") in
  let tc' := snd (fst (task_count_next tc)) in
  task_count_str tc' = task_count_str tc
  /\ (cur_ptr tc <= cur_ptr tc')%nat /\ in_bounds tc'.
Proof.
  apply (cursor_stays_in_string (task_count_init (lit "4(x2),2"))
           _ 4 None eq_refl).
  unfold in_bounds. simpl. lia.
Defined.

(** A call that parses an entry consumes at least one character: with no
    entry active and the cursor before the end of the string, a call that
    writes no diagnostic moves the cursor forward. *)
Theorem parsing_advances (tc tc' : task_count_t) (r : Z) :
  task_count_next tc = (r, tc', None) ->
  count tc = 0 -> exhausted tc = false ->
  (cur_ptr tc < cur_ptr tc')%nat.
Proof.
  unfold task_count_next, exhausted, yield, fail. intros Hnext Hc Hex.
  rewrite Hc in *. cbn [Z.eqb andb] in *. rewrite Hex in Hnext.
  cbn [negb] in Hnext.
  destruct (strtol (skipn (cur_ptr tc) (task_count_str tc))) as [c n].
  destruct (Nat.ltb_spec 0 n); [|discriminate Hnext].
  repeat match type of Hnext with
         | context [strtol ?s] => destruct (strtol s) as [? ?]
         | context [if ?b then _ else _] => destruct b
         end;
    try discriminate Hnext; injection Hnext as _ <-; simpl; lia.
Qed.

Lemma parsing_advances_witness :
  (cur_ptr (task_count_init (lit "12,3"))
   < cur_ptr (snd (fst (task_count_next (task_count_init (lit "12,3"))))))%nat.
Proof.
  apply (parsing_advances (task_count_init (lit "12,3")) _ 12);
    reflexivity.
Defined.

Section ParseErrors.

Import Grammar.

Lemma INT_head (v rest : list ascii) :
  INT v = true ->
  Ascii.eqb (deref (v ++ rest)) NUL = false /\ (0 <? length v)%nat = true.
Proof.
  destruct v as [|c v]; [discriminate|]. intros H.
  simpl in H. apply andb_prop in H. destruct H as [Hc _].
  apply isdigit_class in Hc. simpl. tauto.
Qed.

Variable tc : task_count_t.
Variable v : list ascii.
Hypothesis no_entry_active : count tc = 0.
Hypothesis value_syntax : INT v = true.

Local Abbreviation s := (task_count_str tc).
Local Abbreviation after_value := (cur_ptr tc + length v)%nat.
Local Abbreviation with_value :=
  (set_value tc (to_int (clamp_long (number v)))).

(** The call up to the test of the character after the value. *)
Lemma next_reads_value (rest : list ascii) :
  skipn (cur_ptr tc) s = v ++ rest -> isdigit (deref rest) = false ->
  task_count_next tc =
    if Ascii.eqb (deref rest) "(" then
      if Ascii.eqb (at_offset s (S after_value)) "x" then
        let '(c, m) := strtol (skipn (S (S after_value)) s) in
        if (0 <? c) && (0 <? m)%nat then
          let tc2 := set_count with_value (to_int c) in
          let end_ptr := (S (S after_value) + m)%nat in
          if Ascii.eqb (at_offset s end_ptr) ")"
             && (Ascii.eqb (at_offset s (S end_ptr)) ","
                 || Ascii.eqb (at_offset s (S end_ptr)) NUL)
          then
            yield (set_cur_ptr tc2
                     (if negb (Ascii.eqb (at_offset s (S end_ptr)) NUL)
                      then S (S end_ptr) else S end_ptr))
          else fail tc2 UnexpectedCharacter end_ptr
        else fail with_value InvalidRepeatCount (S (S after_value))
      else fail with_value InvalidRepeatSpecification (S after_value)
    else if Ascii.eqb (deref rest) "," then
      yield (set_cur_ptr (set_count with_value 1) (S after_value))
    else if Ascii.eqb (deref rest) NUL then
      yield (set_cur_ptr (set_count with_value 1) after_value)
    else fail with_value UnexpectedCharacter after_value.
Proof.
  intros Hat Hrest.
  destruct (INT_head v rest value_syntax) as [Hhead Hlen].
  unfold task_count_next.
  rewrite no_entry_active, (at_here _ _ _ Hat), Hhead, Hat,
    (strtol_INT v rest value_syntax Hrest).
  cbn beta iota zeta delta [negb Z.eqb]. rewrite Hlen.
  rewrite (at_here _ _ _ (skipn_past _ _ _ _ Hat)).
  reflexivity.
Qed.

(** After the value, a character that is neither a digit, nor an opening
    parenthesis, nor a comma, nor the end of the string is reported as
    unexpected, at its own offset; the cursor does not move. *)
Theorem unexpected_after_value (c : ascii) (rest : list ascii) :
  skipn (cur_ptr tc) s = v ++ c :: rest ->
  isdigit c = false -> Ascii.eqb c "(" = false ->
  Ascii.eqb c "," = false -> Ascii.eqb c NUL = false ->
  task_count_next tc
  = (-1, with_value, Some (DecodeError UnexpectedCharacter after_value s)).
Proof.
  intros Hat Hd Hp Hc Hn.
  rewrite (next_reads_value (c :: rest) Hat Hd).
  cbn [deref hd]. rewrite Hp, Hc, Hn. reflexivity.
Qed.

(** An opening parenthesis that is not followed by [x] is an invalid
    repeat specification, reported at the offset after the parenthesis; and
    ["(x"] that is not followed by an integer above zero is an invalid repeat
    count, reported at the offset after the [x].  The cursor does not
    move. *)
Theorem malformed_repeat (rest : list ascii) :
  (skipn (cur_ptr tc) s = v ++ "("%char :: rest ->
   Ascii.eqb (deref rest) "x" = false ->
   task_count_next tc
   = (-1, with_value,
      Some (DecodeError InvalidRepeatSpecification (S after_value) s)))
  /\ (skipn (cur_ptr tc) s = v ++ "("%char :: "x"%char :: rest ->
      (0 <? fst (strtol rest)) && (0 <? snd (strtol rest))%nat = false ->
      task_count_next tc
      = (-1, with_value,
         Some (DecodeError InvalidRepeatCount (S (S after_value)) s))).
Proof.
  split.
  - intros Hat Hx.
    rewrite (next_reads_value _ Hat eq_refl). cbn [deref hd Ascii.eqb Bool.eqb].
    pose proof (skipn_S _ _ _ _ (skipn_past _ _ _ _ Hat)) as H1.
    rewrite (at_here _ _ _ H1), Hx. reflexivity.
  - intros Hat Hr.
    rewrite (next_reads_value _ Hat eq_refl). cbn [deref hd Ascii.eqb Bool.eqb].
    pose proof (skipn_S _ _ _ _ (skipn_past _ _ _ _ Hat)) as H1.
    pose proof (skipn_S _ _ _ _ H1) as H2.
    rewrite (at_here _ _ _ H1), H2. cbn [deref hd Ascii.eqb Bool.eqb].
    destruct (strtol rest) as [c m]. cbn [fst snd] in Hr. rewrite Hr.
    reflexivity.
Qed.

(** A repeat count that is not closed by a parenthesis followed by a comma
    or the end of the string is reported as an unexpected character at the
    offset after the count; the cursor does not move, but the count is
    kept as the repetitions of the entry. *)
Theorem unclosed_repeat (r rest : list ascii) :
  skipn (cur_ptr tc) s = v ++ lit "(x" ++ r ++ rest ->
  INT r = true -> 1 <= number r <= INT_MAX ->
  isdigit (deref rest) = false ->
  Ascii.eqb (deref rest) ")"
  && (Ascii.eqb (deref (tl rest)) "," || Ascii.eqb (deref (tl rest)) NUL)
  = false ->
  task_count_next tc
  = (-1, set_count with_value (number r),
     Some (DecodeError UnexpectedCharacter
             (S (S after_value) + length r) s)).
Proof.
  intros Hat Hr Hrange Hd Hclose.
  change (v ++ lit "(x" ++ r ++ rest)
    with (v ++ "("%char :: "x"%char :: r ++ rest) in Hat.
  rewrite (next_reads_value _ Hat eq_refl). cbn [deref hd Ascii.eqb Bool.eqb].
  pose proof (skipn_S _ _ _ _ (skipn_past _ _ _ _ Hat)) as H1.
  pose proof (skipn_S _ _ _ _ H1) as H2.
  pose proof (skipn_past _ _ _ _ H2) as H3.
  rewrite (at_here _ _ _ H1), H2, (strtol_INT r rest Hr Hd).
  cbn [deref hd Ascii.eqb Bool.eqb].
  assert (Hclamp : clamp_long (number r) = number r).
  { unfold clamp_long, LONG_MIN, LONG_MAX, INT_MAX in *.
    destruct (Z.ltb_spec (number r) (-9223372036854775808)); [lia|].
    destruct (Z.ltb_spec 9223372036854775807 (number r)); [lia|].
    reflexivity. }
  destruct (INT_head r rest Hr) as [_ Hlen].
  rewrite Hclamp, Hlen.
  replace (0 <? number r) with true by (symmetry; apply Z.ltb_lt; lia).
  cbn [andb]. cbv zeta.
  rewrite (at_here _ _ _ H3).
  assert (Hnext : at_offset s (S (S (S after_value) + length r))
                  = deref (tl rest)).
  { rewrite at_offset_skipn. destruct rest as [|x rest'].
    - rewrite skipn_all2; [reflexivity|].
      apply (f_equal (@length ascii)) in H3. rewrite length_skipn in H3.
      simpl in H3. lia.
    - rewrite (skipn_S _ _ _ _ H3). reflexivity. }
  rewrite Hnext, Hclose.
  rewrite (to_int_small (number r)) by (unfold INT_MAX in *; lia).
  reflexivity.
Qed.

End ParseErrors.

Lemma unexpected_after_value_witness :
  task_count_next (task_count_init (lit "4;2"))
  = (-1, set_value (task_count_init (lit "4;2")) 4,
     Some (DecodeError UnexpectedCharacter 1 (lit "4;2"))).
Proof.
  apply (unexpected_after_value (task_count_init (lit "4;2")) (lit "4")
           eq_refl eq_refl ";" (lit "2")); reflexivity.
Defined.

Lemma malformed_repeat_witness :
  task_count_next (task_count_init (lit "4(y2)"))
  = (-1, set_value (task_count_init (lit "4(y2)")) 4,
     Some (DecodeError InvalidRepeatSpecification 2 (lit "4(y2)")))
  /\ task_count_next (task_count_init (lit "4(x0)"))
     = (-1, set_value (task_count_init (lit "4(x0)")) 4,
        Some (DecodeError InvalidRepeatCount 3 (lit "4(x0)"))).
Proof.
  split.
  - apply (proj1 (malformed_repeat (task_count_init (lit "4(y2)")) (lit "4")
                    eq_refl eq_refl (lit "y2)"))); reflexivity.
  - apply (proj2 (malformed_repeat (task_count_init (lit "4(x0)")) (lit "4")
                    eq_refl eq_refl (lit "0)"))); reflexivity.
Defined.

Lemma unclosed_repeat_witness :
  task_count_next (task_count_init (lit "4(x2"))
  = (-1, set_count (set_value (task_count_init (lit "4(x2")) 4) 2,
     Some (DecodeError UnexpectedCharacter 4 (lit "4(x2"))).
Proof.
  apply (unclosed_repeat (task_count_init (lit "4(x2")) (lit "4")
           eq_refl eq_refl (lit "2") []); try reflexivity.
  unfold INT_MAX. split; vm_compute; discriminate.
Defined.

(** * The decoder and the grammar, both ways *)

Section GrammarBothWays.

Import Grammar.

Lemma digits_nonneg (s : list ascii) :
  forall acc, 0 <= acc -> 0 <= fst (digits s acc).
Proof.
  induction s as [|c s IH]; intros acc Hacc; cbn [digits]; [exact Hacc|].
  destruct (isdigit c) eqn:Hc; [|exact Hacc].
  assert (Hd : 0 <= digit_value c).
  { unfold isdigit in Hc. apply andb_prop in Hc. destruct Hc as [Hc _].
    apply Nat.leb_le in Hc. unfold digit_value. lia. }
  specialize (IH (acc * 10 + digit_value c)).
  destruct (digits s (acc * 10 + digit_value c)). cbn [fst] in *.
  apply IH. lia.
Qed.

(** [number] is the decimal reading of an [INT]: one more digit multiplies
    what precedes by ten and adds its own value. *)
Lemma number_snoc (s : list ascii) (c : ascii) :
  forallb isdigit s = true -> isdigit c = true ->
  number (s ++ [c]) = 10 * number s + digit_value c.
Proof.
  intros Hs Hc. unfold number.
  enough (H : forall acc,
             fst (digits (s ++ [c]) acc)
             = 10 * fst (digits s acc) + digit_value c) by apply H.
  revert Hs. induction s as [|d s IH]; intros Hs acc.
  - cbn [app digits fst]. rewrite Hc. cbn [fst]. lia.
  - cbn [forallb] in Hs. apply andb_prop in Hs. destruct Hs as [Hd Hs].
    cbn [app digits]. rewrite Hd.
    specialize (IH Hs (acc * 10 + digit_value d)).
    destruct (digits (s ++ [c]) (acc * 10 + digit_value d)).
    destruct (digits s (acc * 10 + digit_value d)). exact IH.
Qed.

(** A value that fits an [int] is stored as the number it denotes. *)
Lemma stored_is_value (e : RunLengthEntry) :
  value_in_range e = true -> stored_value e = entry_value e.
Proof.
  unfold value_in_range, stored_value, entry_value. intros H.
  apply Z.leb_le in H.
  pose proof (digits_nonneg (value_text e) 0 (Z.le_refl 0)) as Hpos.
  fold (number (value_text e)) in Hpos.
  unfold clamp_long, LONG_MIN, LONG_MAX, INT_MAX in *.
  destruct (Z.ltb_spec (number (value_text e)) (-9223372036854775808));
    [lia|].
  destruct (Z.ltb_spec 9223372036854775807 (number (value_text e))); [lia|].
  apply to_int_small. unfold INT_MAX. lia.
Qed.

Lemma stored_expansion_is (es : list RunLengthEntry) :
  forallb value_in_range es = true -> stored_expansion es = expansion es.
Proof.
  induction es as [|e es IH]; [reflexivity|]. cbn [forallb].
  intros H. apply andb_prop in H. destruct H as [He Hes].
  cbn [stored_expansion expansion flat_map].
  rewrite (stored_is_value e He). f_equal. exact (IH Hes).
Qed.

(** From the grammar to the decoder. *)
Lemma grammar_decodes (es : list RunLengthEntry) (trail : list ascii) :
  es <> [] ->
  forallb entry_syntax es = true ->
  forallb value_in_range es = true ->
  forallb repeat_in_range es = true ->
  trail = [] \/ trail = [","%char] ->
  decodes_cleanly (spec_text es ++ trail) (expansion es).
Proof.
  intros Hne Hs Hv Hr Ht. unfold decodes_cleanly.
  rewrite <- (stored_expansion_is es Hv).
  apply (decode_pending trail es Ht Hs Hr (task_count_init _) eq_refl).
  destruct es; [contradiction | reflexivity].
Qed.

(** The digits at the head of a string, and what follows them. *)
Lemma digit_prefix (p : list ascii) :
  exists v rest,
    p = v ++ rest /\ forallb isdigit v = true /\ isdigit (deref rest) = false.
Proof.
  induction p as [|c p (v & rest & -> & Hv & Hrest)].
  - exists [], []. repeat split.
  - destruct (isdigit c) eqn:Hc.
    + exists (c :: v), rest. cbn [forallb]. rewrite Hc, Hv. repeat split.
      exact Hrest.
    + exists [], (c :: v ++ rest). repeat split. exact Hc.
Qed.

Lemma unsigned_head (p : list ascii) :
  unsigned_text p = true ->
  isspace (deref p) = false
  /\ Ascii.eqb (deref p) "-" || Ascii.eqb (deref p) "+" = false.
Proof.
  destruct p as [|c p]; [split; reflexivity|].
  cbn [unsigned_text forallb deref hd]. intros H.
  apply andb_prop in H. destruct H as [Hc _]. unfold unsigned_char in Hc.
  apply negb_true_iff in Hc. apply orb_false_elim in Hc.
  destruct Hc as [Hc _]. apply orb_false_elim in Hc. exact Hc.
Qed.

Lemma unsigned_end (p : list ascii) :
  unsigned_text p = true -> Ascii.eqb (deref p) NUL = true -> p = [].
Proof.
  destruct p as [|c p]; [reflexivity|].
  cbn [unsigned_text forallb deref hd]. intros H Hn.
  apply andb_prop in H. destruct H as [Hc _]. unfold unsigned_char in Hc.
  rewrite Hn, orb_true_r in Hc. discriminate Hc.
Qed.

Lemma unsigned_skipn (s : list ascii) (n : nat) :
  unsigned_text s = true -> unsigned_text (skipn n s) = true.
Proof.
  revert s. induction n as [|n IH]; intros [|c s] H; try exact H.
  cbn [skipn]. apply IH. cbn [unsigned_text forallb] in H.
  apply andb_prop in H. tauto.
Qed.

Lemma unsigned_app (a b : list ascii) :
  unsigned_text (a ++ b) = true -> unsigned_text b = true.
Proof.
  unfold unsigned_text. rewrite forallb_app. intros H.
  apply andb_prop in H. tauto.
Qed.

Lemma unsigned_tail (c : ascii) (p : list ascii) :
  unsigned_text (c :: p) = true -> unsigned_text p = true.
Proof. apply (unsigned_app [c] p). Qed.

(** On such a string [strtol] converts the digits at its head, or nothing
    when there is none. *)
Lemma strtol_unsigned (v rest : list ascii) :
  unsigned_text (v ++ rest) = true ->
  forallb isdigit v = true -> isdigit (deref rest) = false ->
  strtol (v ++ rest)
  = match v with
    | [] => (0, 0%nat)
    | _ :: _ => (clamp_long (number v), length v)
    end.
Proof.
  intros Hu Hv Hrest. destruct v as [|c v].
  - cbn [app] in *. destruct (unsigned_head rest Hu) as [Hs Hg].
    apply strtol_stops_at; assumption.
  - apply strtol_INT; [exact Hv | exact Hrest].
Qed.

Lemma at_is_cons (s : list ascii) (p : nat) (c : ascii) :
  Ascii.eqb (at_offset s p) c = true -> Ascii.eqb c NUL = false ->
  exists t, skipn p s = c :: t.
Proof.
  rewrite at_offset_skipn. destruct (skipn p s) as [|x t]; cbn [deref hd].
  - intros H Hc. apply Ascii.eqb_eq in H. subst c. discriminate Hc.
  - intros H _. apply Ascii.eqb_eq in H. subst x. exists t. reflexivity.
Qed.

Lemma clamp_long_positive (z : Z) : 0 < clamp_long z -> 1 <= z.
Proof.
  unfold clamp_long, LONG_MIN, LONG_MAX.
  destruct (Z.ltb_spec z (-9223372036854775808)); [lia|].
  destruct (Z.ltb_spec 9223372036854775807 z); lia.
Qed.

Lemma next_keeps_string (tc tc1 : task_count_t) (v : Z) (d : option message) :
  task_count_next tc = (v, tc1, d) -> task_count_str tc1 = task_count_str tc.
Proof.
  unfold task_count_next, yield, fail. intros H.
  repeat match type of H with
         | context [strtol ?s] => destruct (strtol s) as [? ?]
         | context [if ?b then _ else _] => destruct b
         end;
    injection H as _ <- _; reflexivity.
Qed.

Lemma next_calls_silent_step (k : nat) (tc tc' : task_count_t) (vs : list Z) :
  next_calls (S k) tc = (vs, [], tc') ->
  exists v tc1 vs',
    task_count_next tc = (v, tc1, None) /\ next_calls k tc1 = (vs', [], tc').
Proof.
  cbn [next_calls]. destruct (task_count_next tc) as [[v tc1] d].
  destruct (next_calls k tc1) as [[vs' ds'] tc2] eqn:Hrest.
  destruct d as [m|]; intros H; [discriminate H|].
  injection H as _ Hds Htc. subst ds' tc2.
  exists v, tc1, vs'. split; [reflexivity | exact Hrest].
Qed.

End GrammarBothWays.

Section Converse.

Import Grammar.

Variable tc tc1 : task_count_t.
Variable v0 : Z.
Hypothesis no_entry_active : count tc = 0.
Hypothesis unsigned_rest :
  unsigned_text (skipn (cur_ptr tc) (task_count_str tc)) = true.
Hypothesis before_end :
  Ascii.eqb (at_offset (task_count_str tc) (cur_ptr tc)) NUL = false.
Hypothesis parsed : task_count_next tc = (v0, tc1, None).

(** A call that parses without a diagnostic has read an entry of the
    grammar, followed by the end of the string or by a comma, and has moved
    the cursor past the entry and the comma. *)
Lemma parsed_entry :
  exists e tail,
    entry_syntax e = true /\ repeat_positive e = true
    /\ skipn (cur_ptr tc) (task_count_str tc) = entry_text e ++ tail
    /\ (tail = [] \/ exists t, tail = ","%char :: t)
    /\ skipn (cur_ptr tc1) (task_count_str tc) = tl tail.
Proof.
  destruct (digit_prefix (skipn (cur_ptr tc) (task_count_str tc)))
    as (v & rest & Hp & Hv & Hrest).
  rewrite Hp in unsigned_rest.
  pose proof (strtol_unsigned v rest unsigned_rest Hv Hrest) as Hstrtol.
  pose proof (unsigned_app _ _ unsigned_rest) as Hu.
  destruct v as [|c v'].
  { exfalso. revert parsed. unfold task_count_next.
    rewrite no_entry_active, before_end, Hp, Hstrtol. discriminate. }
  assert (Hint : INT (c :: v') = true) by exact Hv.
  pose proof (skipn_past _ _ _ _ Hp) as Hafter.
  pose proof parsed as H.
  rewrite (next_reads_value tc (c :: v') no_entry_active Hint rest Hp Hrest)
    in H.
  destruct rest as [|x rest1].
  - (* the value ends the string *)
    cbn [deref hd Ascii.eqb Bool.eqb NUL] in H.
    injection H as _ <-.
    exists (mk_entry (c :: v') None), [].
    unfold entry_syntax, repeat_positive, entry_text.
    cbn [value_text repeat_text]. rewrite Hint.
    repeat split; auto.
  - cbn [deref hd] in H. pose proof (unsigned_tail _ _ Hu) as Hu1.
    pose proof (skipn_S _ _ _ _ Hafter) as Hafter1.
    destruct (Ascii.eqb x "(") eqn:Hparen.
    + (* a repeat count *)
      apply Ascii.eqb_eq in Hparen. subst x.
      rewrite (at_here _ _ _ Hafter1) in H.
      destruct (Ascii.eqb (deref rest1) "x") eqn:Hx; [|discriminate H].
      destruct rest1 as [|x rest2]; [discriminate Hx|].
      cbn [deref hd] in Hx. apply Ascii.eqb_eq in Hx. subst x.
      pose proof (unsigned_tail _ _ Hu1) as Hu2.
      pose proof (skipn_S _ _ _ _ Hafter1) as Hafter2.
      rewrite Hafter2 in H.
      destruct (digit_prefix rest2) as (r & rest3 & -> & Hr & Hrest3).
      rewrite (strtol_unsigned r rest3 Hu2 Hr Hrest3) in H.
      destruct r as [|cr r']; [discriminate H|].
      set (r := cr :: r') in *.
      assert (Hrint : INT r = true) by exact Hr.
      destruct (0 <? clamp_long (number r)) eqn:Hpos;
        [|discriminate H].
      apply Z.ltb_lt, clamp_long_positive in Hpos.
      cbn [andb] in H. cbv zeta in H.
      replace (0 <? length r)%nat with true in H by reflexivity.
      pose proof (skipn_past _ _ _ _ Hafter2) as Hafter3.
      rewrite (at_here _ _ _ Hafter3) in H.
      destruct (Ascii.eqb (deref rest3) ")") eqn:Hclose;
        [|discriminate H].
      destruct rest3 as [|x tail]; [discriminate Hclose|].
      cbn [deref hd] in Hclose. apply Ascii.eqb_eq in Hclose. subst x.
      pose proof (skipn_S _ _ _ _ Hafter3) as Hafter4.
      pose proof (unsigned_tail _ _ (unsigned_app _ _ Hu2)) as Hu4.
      rewrite (at_here _ _ _ Hafter4) in H. cbn [andb] in H.
      exists (mk_entry (c :: v') (Some r)), tail.
      unfold entry_syntax, repeat_positive, entry_text.
      cbn [value_text repeat_text].
      rewrite Hint, Hrint. cbn [andb].
      split; [reflexivity|]. split; [apply Z.leb_le; exact Hpos|].
      split; [rewrite Hp, <- !app_assoc; reflexivity|].
      destruct tail as [|y t].
      * cbn [deref hd Ascii.eqb Bool.eqb NUL orb negb] in H.
        injection H as _ <-. cbn [set_cur_ptr set_count cur_ptr tl].
        split; [left; reflexivity | exact Hafter4].
      * cbn [deref hd] in H.
        assert (Hy : Ascii.eqb y NUL = false).
        { destruct (Ascii.eqb y NUL) eqn:E; [|reflexivity].
          pose proof (unsigned_end (y :: t) Hu4 E). discriminate. }
        rewrite Hy, orb_false_r in H. cbn [negb] in H.
        destruct (Ascii.eqb y ",") eqn:Hcomma; [|discriminate H].
        apply Ascii.eqb_eq in Hcomma. subst y.
        injection H as _ <-. cbn [set_cur_ptr set_count cur_ptr tl].
        split; [right; eexists; reflexivity|].
        exact (skipn_S _ _ _ _ Hafter4).
    + destruct (Ascii.eqb x ",") eqn:Hcomma.
      * (* a value followed by a comma *)
        apply Ascii.eqb_eq in Hcomma. subst x. injection H as _ <-.
        exists (mk_entry (c :: v') None), (","%char :: rest1).
        unfold entry_syntax, repeat_positive, entry_text.
        cbn [value_text repeat_text set_cur_ptr set_count cur_ptr tl].
        rewrite Hint. repeat split; auto.
        right. eexists. reflexivity.
      * assert (Hx : Ascii.eqb x NUL = false).
        { destruct (Ascii.eqb x NUL) eqn:E; [|reflexivity].
          pose proof (unsigned_end (x :: rest1) Hu E). discriminate. }
        rewrite Hx in H. discriminate H.
Qed.

End Converse.

Section CleanRuns.

Import Grammar.

(** What is left at the cursor of a decoder that goes on to exhaustion
    without a diagnostic is nothing, or entries of the grammar, optionally
    followed by one comma. *)
Lemma clean_run_shape (k : nat) :
  forall (tc tc' : task_count_t) (vs : list Z),
    unsigned_text (task_count_str tc) = true ->
    next_calls k tc = (vs, [], tc') -> exhausted tc' = true ->
    skipn (cur_ptr tc) (task_count_str tc) = []
    \/ matches_with_comma (skipn (cur_ptr tc) (task_count_str tc)).
Proof.
  induction k as [|k IH]; intros tc tc' vs Hu Hcalls Hex.
  - cbn [next_calls] in Hcalls. injection Hcalls as _ <-.
    left. unfold exhausted in Hex. apply andb_prop in Hex.
    destruct Hex as [_ Hn]. rewrite at_offset_skipn in Hn.
    exact (unsigned_end _ (unsigned_skipn _ _ Hu) Hn).
  - destruct (next_calls_silent_step k tc tc' vs Hcalls)
      as (v & tc1 & vs' & Hnext & Hrest).
    pose proof (next_keeps_string tc tc1 v None Hnext) as Hstr.
    assert (Hu1 : unsigned_text (task_count_str tc1) = true)
      by (rewrite Hstr; exact Hu).
    specialize (IH tc1 tc' vs' Hu1 Hrest Hex). rewrite Hstr in IH.
    destruct (Z.eqb_spec (count tc) 0) as [Hc | Hc].
    + destruct (Ascii.eqb (at_offset (task_count_str tc) (cur_ptr tc)) NUL)
        eqn:Hn.
      * left. rewrite at_offset_skipn in Hn.
        exact (unsigned_end _ (unsigned_skipn _ _ Hu) Hn).
      * destruct (parsed_entry tc tc1 v Hc (unsigned_skipn _ _ Hu) Hn Hnext)
          as (e & tail & Hs & Hr & Hat & Htail & Hcur).
        rewrite Hcur in IH. right. rewrite Hat.
        destruct Htail as [-> | [t ->]].
        -- exists [e], []. cbn [forallb spec_text]. rewrite Hs, Hr.
           repeat split; auto. discriminate.
        -- cbn [tl] in IH.
           destruct IH as [-> | (es & trail & Hne & Hss & Hrs & Ht & ->)].
           ++ exists [e], [","%char]. cbn [forallb spec_text].
              rewrite Hs, Hr. repeat split; auto. discriminate.
           ++ exists (e :: es), trail. cbn [forallb]. rewrite Hs, Hr, Hss, Hrs.
              repeat split; auto; [discriminate|].
              destruct es as [|e' es']; [contradiction|].
              change (spec_text (e :: e' :: es'))
                with (entry_text e ++ lit "," ++ spec_text (e' :: es')).
              rewrite <- !app_assoc. reflexivity.
    + rewrite (next_active tc Hc) in Hnext. unfold yield in Hnext.
      injection Hnext as _ <-. exact IH.
Qed.

End CleanRuns.

(** C9, as the code has it.  One way: a string of the grammar
    [entry (',' entry)*], [entry = INT | INT '(x' INT ')'], whose values fit
    an [int] and whose repeat counts are at least 1 and fit an [int], is
    decoded to exhaustion without a parse error, and the calls return the
    numbers the entries denote, each as often as its repeat count says; so is
    that string followed by one more comma.  The other way: a string that is
    not empty, holds no white space and no sign, and is decoded to
    exhaustion without a parse error is a string of the grammar with repeat
    counts of at least 1, or such a string followed by one comma. *)
Theorem grammar_and_decoder :
  (forall (es : list Grammar.RunLengthEntry) (trail : list ascii),
      es <> [] ->
      forallb Grammar.entry_syntax es = true ->
      forallb Grammar.value_in_range es = true ->
      forallb Grammar.repeat_in_range es = true ->
      trail = [] \/ trail = [","%char] ->
      Grammar.decodes_cleanly (Grammar.spec_text es ++ trail)
        (Grammar.expansion es))
  /\ (forall (s : list ascii) (vs : list Z),
         s <> [] -> Grammar.unsigned_text s = true ->
         Grammar.decodes_cleanly s vs -> Grammar.matches_with_comma s).
Proof.
  split.
  - exact grammar_decodes.
  - intros s vs Hne Hu (tc & Hcalls & Hex).
    destruct (clean_run_shape (length vs) (task_count_init s) tc vs Hu
                Hcalls Hex) as [Hnil | Hm].
    + contradiction.
    + exact Hm.
Qed.

Lemma grammar_and_decoder_witness :
  Grammar.decodes_cleanly (lit "4(x2),2,1(x3)") [4; 4; 2; 1; 1; 1]
  /\ Grammar.matches_with_comma (lit "4,").
Proof.
  split.
  - apply (proj1 grammar_and_decoder
             [Grammar.mk_entry (lit "4") (Some (lit "2"));
              Grammar.mk_entry (lit "2") None;
              Grammar.mk_entry (lit "1") (Some (lit "3"))] []).
    + discriminate.
    + reflexivity.
    + reflexivity.
    + reflexivity.
    + left; reflexivity.
  - apply (proj2 grammar_and_decoder (lit "4,") [4]).
    + discriminate.
    + reflexivity.
    + eexists. split; reflexivity.
Defined.

(** ** What the bounds leave out

    The bounds of the first direction and the restriction of the second
    are needed, each on an example. *)

(** A repeat count of 0 is in the grammar and is rejected. *)
Lemma zero_repeat_is_rejected :
  Grammar.matches (lit "4(x0)")
  /\ snd (task_count_next (task_count_init (lit "4(x0)")))
     = Some (DecodeError InvalidRepeatCount 3 (lit "4(x0)")).
Proof.
  split; [|reflexivity].
  exists [Grammar.mk_entry (lit "4") (Some (lit "0"))].
  repeat split. discriminate.
Qed.

(** A value above [INT_MAX] is decoded without an error, to another
    number than the one it denotes. *)
Lemma large_value_is_wrapped :
  Grammar.matches (lit "4294967297")
  /\ Grammar.decodes_cleanly (lit "4294967297") [1]
  /\ Grammar.number (lit "4294967297") = 4294967297.
Proof.
  split; [|split; [|reflexivity]].
  - exists [Grammar.mk_entry (lit "4294967297") None].
    repeat split. discriminate.
  - eexists. split; reflexivity.
Qed.

(** A string of the grammar, also with a trailing comma, starts with a
    digit. *)
Lemma matches_with_comma_head (s : list ascii) :
  Grammar.matches_with_comma s -> isdigit (deref s) = true.
Proof.
  intros (es & trail & Hne & Hs & _ & _ & ->).
  destruct es as [|e es]; [contradiction|].
  cbn [forallb] in Hs. apply andb_prop in Hs. destruct Hs as [He _].
  unfold Grammar.entry_syntax in He. apply andb_prop in He.
  destruct He as [Hv _].
  assert (Hhead : exists c t, Grammar.spec_text (e :: es) = c :: t
                              /\ isdigit c = true).
  { destruct e as [[|c v] r]; [discriminate Hv|].
    cbn [Grammar.value_text Grammar.INT forallb] in Hv.
    apply andb_prop in Hv. destruct Hv as [Hc _].
    destruct es, r; cbn [Grammar.spec_text Grammar.entry_text
                         Grammar.value_text Grammar.repeat_text app];
      eexists; eexists; (split; [reflexivity | exact Hc]). }
  destruct Hhead as (c & t & -> & Hc). exact Hc.
Qed.

(** White space and a sign before an integer are decoded without an
    error, and are not of the grammar. *)
Lemma sign_and_space_are_decoded :
  Grammar.decodes_cleanly (lit " +4") [4]
  /\ ~ Grammar.matches_with_comma (lit " +4").
Proof.
  split.
  - eexists. split; reflexivity.
  - intros H. apply matches_with_comma_head in H. discriminate H.
Qed.

(** * What the classification finds *)

Section ClassificationSound.

Lemma starts_with_split (pat s : list ascii) :
  starts_with pat s = true -> exists rest, s = pat ++ rest.
Proof.
  revert s. induction pat as [|a pat IH]; intros s H.
  - exists s. reflexivity.
  - destruct s as [|c s]; [discriminate|]. cbn [starts_with] in H.
    apply andb_prop in H. destruct H as [Hc Hs].
    apply Ascii.eqb_eq in Hc. subst c.
    destruct (IH s Hs) as [rest ->]. exists rest. reflexivity.
Qed.

(** What [strstr] returns is a suffix that begins with the pattern, and
    the string did not end before it. *)
Lemma strstr_sound (pat s p : list ascii) :
  strstr s pat = Some p ->
  exists a rest, s = a ++ p /\ p = pat ++ rest /\ nul_free a = true.
Proof.
  induction s as [|c s IH]; cbn [strstr]; [discriminate|].
  destruct (Ascii.eqb c NUL) eqn:Hn; [discriminate|].
  destruct (starts_with pat (c :: s)) eqn:Hs.
  - intros [= <-]. destruct (starts_with_split _ _ Hs) as [rest Hrest].
    exists [], rest. repeat split. exact Hrest.
  - intros H. destruct (IH H) as (a & rest & -> & Hp & Ha).
    exists (c :: a), rest. repeat split; [exact Hp|].
    cbn [nul_free forallb]. rewrite Hn. exact Ha.
Qed.

(** The delimiter scan splits the string where it stops, and it stops at a
    closing bracket or where the string ends. *)
Lemma scan_delim_split (s : list ascii) :
  s = fst (scan_delim s) ++ snd (scan_delim s)
  /\ delimiter_text (fst (scan_delim s)) = true
  /\ (Ascii.eqb (deref (snd (scan_delim s))) "]" = false ->
      strstr (snd (scan_delim s)) (lit "%[") = None
      /\ c_str s = fst (scan_delim s)).
Proof.
  induction s as [|c s IH]; cbn [scan_delim].
  - repeat split.
  - destruct (Ascii.eqb c NUL) eqn:Hn; cbn [orb].
    + split; [reflexivity | split; [reflexivity | intros _]].
      cbn [fst snd strstr c_str]. rewrite Hn. split; reflexivity.
    + destruct (Ascii.eqb c "]") eqn:Hb.
      * split; [reflexivity | split; [reflexivity | intros Hc]].
        cbn [snd deref hd] in Hc. congruence.
      * destruct (scan_delim s) as [d q]. cbn [fst snd] in *.
        destruct IH as (Hs & Hd & Hstop). repeat split.
        -- cbn [app]. congruence.
        -- cbn [delimiter_text forallb]. unfold delimiter_char at 1.
           rewrite Hn, Hb. exact Hd.
        -- apply Hstop. assumption.
        -- cbn [c_str]. rewrite Hn. f_equal. apply Hstop. assumption.
Qed.

Lemma delimiter_text_nul_free (d : list ascii) :
  delimiter_text d = true -> nul_free d = true.
Proof.
  induction d as [|c d IH]; [reflexivity|].
  cbn [delimiter_text nul_free forallb]. intros H.
  apply andb_prop in H. destruct H as [Hc Hd].
  unfold delimiter_char in Hc. apply negb_true_iff, orb_false_elim in Hc.
  destruct Hc as [-> _]. exact (IH Hd).
Qed.

(** A delimited count token in the text of a format, before the end of the
    C string. *)
Definition holds_delimited_count (format : list ascii) : Prop :=
  exists pre d x rest,
    format = pre ++ lit "%[" ++ d ++ "]"%char :: x :: rest
    /\ nul_free pre = true /\ delimiter_text d = true
    /\ Ascii.eqb x "c" || Ascii.eqb x "C" = true.

(** A bare count token in the text of a format. *)
Definition holds_bare_count (format : list ascii) : Prop :=
  exists pre x rest,
    format = pre ++ "%"%char :: x :: rest
    /\ nul_free pre = true
    /\ Ascii.eqb x "c" || Ascii.eqb x "C" = true.

Lemma delimited_count_sound (format : list ascii) :
  delimited_count format = true -> holds_delimited_count format.
Proof.
  assert (H : forall k s, (length s <= k)%nat ->
            delimited_count s = true -> holds_delimited_count s).
  { induction k as [|k IH]; intros s Hk; rewrite delimited_count_step;
      destruct (strstr s (lit "%[")) as [p|] eqn:Hp; try discriminate;
      destruct (strstr_sound _ _ _ Hp) as (a & p2 & -> & -> & Ha).
    - rewrite length_app in Hk. simpl in Hk. lia.
    - cbn [lit list_ascii_of_string app skipn]. cbv zeta.
      destruct (scan_delim_split p2) as (Hsplit & Hd & Hstop).
      destruct (scan_delim p2) as [d q]. cbn [fst snd] in *.
      destruct (Ascii.eqb (deref q) "]") eqn:Hq.
      + destruct q as [|b q']; [discriminate Hq|].
        cbn [deref hd] in Hq. apply Ascii.eqb_eq in Hq. subst b.
        cbn [tl].
        destruct (Ascii.eqb (deref q') "c" || Ascii.eqb (deref q') "C")
          eqn:Hx.
        * intros _. destruct q' as [|x rest]; [discriminate Hx|].
          exists a, d, x, rest. subst p2. repeat split; assumption.
        * intros Hrec. apply IH in Hrec.
          -- destruct Hrec as (pre & d' & x & rest & -> & Hpre & Hd' & Hx').
             exists (a ++ lit "%[" ++ d ++ "]"%char :: pre), d', x, rest.
             subst p2. repeat split; try assumption.
             ++ cbn [lit list_ascii_of_string app].
                repeat (rewrite <- app_assoc; cbn [app]). reflexivity.
             ++ pose proof (delimiter_text_nul_free d Hd) as Hnd.
                unfold nul_free in *. cbn [lit list_ascii_of_string app].
                rewrite forallb_app. cbn [forallb].
                rewrite forallb_app. cbn [forallb].
                rewrite Ha, Hnd, Hpre. reflexivity.
          -- subst p2. rewrite ?length_app in Hk. simpl in Hk.
             rewrite ?length_app in Hk. simpl in Hk. lia.
      + intros Hrec. rewrite delimited_count_step in Hrec.
        destruct (Hstop eq_refl) as [Hnone _]. rewrite Hnone in Hrec.
        discriminate Hrec. }
  apply (H (length format)). lia.
Qed.

End ClassificationSound.

(** The classification is a search in the text of the format: [has_count]
    is true exactly when, before the end of the C string, the format holds
    the two characters [%c] or [%C], or ["%["], any characters other than a
    closing bracket, a closing bracket and [c] or [C]. *)
Theorem has_count_is_textual (format : list ascii) :
  has_count format = true
  <-> holds_bare_count format \/ holds_delimited_count format.
Proof.
  split.
  - unfold has_count.
    destruct (strstr format (lit "%c")) as [p|] eqn:H1.
    { intros _. left.
      destruct (strstr_sound _ _ _ H1) as (a & rest & -> & -> & Ha).
      exists a, "c"%char, rest. repeat split. exact Ha. }
    destruct (strstr format (lit "%C")) as [p|] eqn:H2.
    { intros _. left.
      destruct (strstr_sound _ _ _ H2) as (a & rest & -> & -> & Ha).
      exists a, "C"%char, rest. repeat split. exact Ha. }
    intros H. right. apply delimited_count_sound. exact H.
  - intros [(pre & x & rest & -> & Hpre & Hx) | (pre & d & x & rest & -> & Hpre & Hd & Hx)].
    + unfold has_count. apply orb_prop in Hx.
      destruct Hx as [Hx | Hx]; apply Ascii.eqb_eq in Hx; subst x.
      * destruct (strstr_found (lit "%c") ("%"%char :: "c"%char :: rest) pre
                    Hpre eq_refl eq_refl) as (a & pre' & _ & -> & _).
        reflexivity.
      * destruct (strstr_found (lit "%C") ("%"%char :: "C"%char :: rest) pre
                    Hpre eq_refl eq_refl) as (a & pre' & _ & -> & _).
        destruct (strstr _ (lit "%c")); reflexivity.
    + apply has_count_delimited.
      apply (delimited_count_found d rest x Hd Hx pre Hpre).
Qed.

(** * Where the single-pass loop fails *)

Section RenderStatus.

Lemma snd_put (o : list ascii) (r : list ascii * option (list ascii)) :
  snd (put o r) = snd r.
Proof. reflexivity. Qed.

(** The suffixes the token loop continues with are shorter than the
    format it is at. *)
Lemma render_suffixes (p : list ascii) :
  (length (tl p) <= length p)%nat
  /\ (length (tl (tl (snd (scan_delim (tl p))))) <= length p)%nat.
Proof.
  pose proof (tl_length p). pose proof (scan_delim_length (tl p)).
  pose proof (tl_length (snd (scan_delim (tl p)))).
  pose proof (tl_length (tl (snd (scan_delim (tl p))))). lia.
Qed.

End RenderStatus.

(** Whether the single-pass loop ends in the invalid-delimiter error, and
    with which reported string, depends on the format alone: not on the
    host and not on the task count. *)
Theorem render_status_of_format (format node_name node_name' : list ascii)
    (task_count task_count' : Z) :
  snd (render_line node_name task_count format)
  = snd (render_line node_name' task_count' format).
Proof.
  assert (H : forall k fmt, (length fmt <= k)%nat ->
            snd (render_line node_name task_count fmt)
            = snd (render_line node_name' task_count' fmt)).
  { induction k as [|k IH]; intros [|c p] Hk;
      try (rewrite !render_line_equation_1; reflexivity);
      [simpl in Hk; lia|].
    simpl in Hk. destruct (render_suffixes p) as [Ht Hs].
    assert (IHp : snd (render_line node_name task_count p)
                  = snd (render_line node_name' task_count' p))
      by (apply IH; lia).
    assert (IHt : snd (render_line node_name task_count (tl p))
                  = snd (render_line node_name' task_count' (tl p)))
      by (apply IH; lia).
    assert (IHs : snd (render_line node_name task_count
                         (tl (tl (snd (scan_delim (tl p))))))
                  = snd (render_line node_name' task_count'
                           (tl (tl (snd (scan_delim (tl p)))))))
      by (apply IH; lia).
    rewrite !render_line_equation_2. cbv zeta.
    destruct (Ascii.eqb c NUL); [reflexivity|].
    destruct (Ascii.eqb c "%"); [|rewrite !snd_put; exact IHp].
    destruct (Ascii.eqb (deref p) "%"); [rewrite !snd_put; exact IHt|].
    destruct (Ascii.eqb (deref p) "h"); [rewrite !snd_put; exact IHt|].
    destruct (Ascii.eqb (deref p) "C");
      [destruct (task_count <=? 1), (task_count' <=? 1); cbn [andb orb];
       rewrite ?snd_put; exact IHt|].
    cbn [andb orb].
    destruct (Ascii.eqb (deref p) "c"); [rewrite !snd_put; exact IHt|].
    destruct (Ascii.eqb (deref p) "[").
    - destruct (Ascii.eqb (deref (snd (scan_delim (tl p)))) "]");
        [|reflexivity].
      destruct (Ascii.eqb (deref (tl (snd (scan_delim (tl p))))) "C");
        [destruct (task_count <=? 1), (task_count' <=? 1); cbn [andb orb];
         rewrite ?snd_put; exact IHs|].
      cbn [andb orb].
      destruct (Ascii.eqb (deref (tl (snd (scan_delim (tl p))))) "c");
        [rewrite !snd_put; exact IHs|].
      destruct (Ascii.eqb (deref (tl (snd (scan_delim (tl p))))) NUL);
        [reflexivity | exact IHs].
    - destruct (Ascii.eqb (deref p) NUL); [reflexivity | exact IHt]. }
  apply (H (length format)). lia.
Qed.

Section RenderFailure.

(** An opening ["%["] that no bracket closes before the end of the string:
    [d] is every character after it. *)
Definition unterminated_at (format d : list ascii) : Prop :=
  exists pre rest,
    format = pre ++ "%"%char :: "["%char :: rest
    /\ nul_free pre = true /\ d = c_str rest /\ delimiter_text d = true.

Lemma unterminated_after (x suffix d : list ascii) :
  nul_free x = true -> unterminated_at suffix d ->
  unterminated_at (x ++ suffix) d.
Proof.
  intros Hx (pre & rest & -> & Hpre & Hd & Hdt).
  exists (x ++ pre), rest. rewrite app_assoc. repeat split; try assumption.
  unfold nul_free in *. rewrite forallb_app, Hx, Hpre. reflexivity.
Qed.

Lemma deref_tl (p : list ascii) :
  Ascii.eqb (deref p) NUL = false -> p = deref p :: tl p.
Proof. destruct p; [discriminate | reflexivity]. Qed.

Variable node_name : list ascii.
Variable task_count : Z.
Variable d : list ascii.

Local Abbreviation render := (render_line node_name task_count).

Lemma render_failure_sound :
  forall k format, (length format <= k)%nat ->
    snd (render format) = Some d -> unterminated_at format d.
Proof.
  induction k as [|k IH]; intros [|c p] Hk;
    try (rewrite render_line_equation_1; discriminate);
    [simpl in Hk; lia|].
  simpl in Hk. destruct (render_suffixes p) as [Ht Hs].
  rewrite render_line_equation_2. cbv zeta.
  destruct (Ascii.eqb c NUL) eqn:Hn; [discriminate|].
  destruct (Ascii.eqb c "%") eqn:Hc.
  2:{ rewrite snd_put. intros Hr. apply IH in Hr; [|lia].
      apply (unterminated_after [c] p d); [|exact Hr].
      cbn [nul_free forallb]. rewrite Hn. reflexivity. }
  apply Ascii.eqb_eq in Hc. subst c.
  destruct (Ascii.eqb (deref p) NUL) eqn:Hp0.
  { apply Ascii.eqb_eq in Hp0. rewrite Hp0. discriminate. }
  assert (Hskip : snd (render (tl p)) = Some d ->
                  unterminated_at ("%"%char :: p) d).
  { intros Hr. apply IH in Hr; [|lia].
    rewrite (deref_tl p Hp0).
    apply (unterminated_after ["%"%char; deref p] (tl p) d); [|exact Hr].
    cbn [nul_free forallb]. rewrite Hp0. reflexivity. }
  destruct (Ascii.eqb (deref p) "%"); [rewrite snd_put; exact Hskip|].
  destruct (Ascii.eqb (deref p) "h"); [rewrite snd_put; exact Hskip|].
  destruct (Ascii.eqb (deref p) "C" && (task_count <=? 1)); [exact Hskip|].
  destruct (Ascii.eqb (deref p) "C" || Ascii.eqb (deref p) "c");
    [rewrite snd_put; exact Hskip|].
  destruct (Ascii.eqb (deref p) "[") eqn:Hb; [|exact Hskip].
  apply Ascii.eqb_eq in Hb. rewrite (deref_tl p Hp0), Hb. cbn [tl].
  clear Hskip. set (delim := tl p) in *.
  destruct (scan_delim_split delim) as (Hsplit & Hdt & Hstop).
  destruct (Ascii.eqb (deref (snd (scan_delim delim))) "]") eqn:Hq.
  - set (q := snd (scan_delim delim)) in *.
    assert (Hq0 : Ascii.eqb (deref q) NUL = false)
      by (apply Ascii.eqb_eq in Hq; rewrite Hq; reflexivity).
    destruct (Ascii.eqb (deref (tl q)) NUL) eqn:Hr0.
    { apply Ascii.eqb_eq in Hr0. rewrite Hr0. discriminate. }
    assert (Hskip : snd (render (tl (tl q))) = Some d ->
                    unterminated_at ("%"%char :: "["%char :: delim) d).
    { intros Hr. apply IH in Hr; [|lia].
      rewrite Hsplit. fold q. rewrite (deref_tl q Hq0).
      rewrite (deref_tl (tl q) Hr0).
      replace ("%"%char :: "["%char :: fst (scan_delim delim)
               ++ deref q :: deref (tl q) :: tl (tl q))
        with (("%"%char :: "["%char :: fst (scan_delim delim)
               ++ [deref q; deref (tl q)]) ++ tl (tl q))
        by (cbn [app]; rewrite <- app_assoc; reflexivity).
      apply unterminated_after; [|exact Hr].
      cbn [nul_free forallb]. rewrite forallb_app. cbn [forallb].
      fold (nul_free (fst (scan_delim delim))).
      rewrite (delimiter_text_nul_free _ Hdt), Hq0, Hr0. reflexivity. }
    destruct (Ascii.eqb (deref (tl q)) "C" && (task_count <=? 1));
      [exact Hskip|].
    destruct (Ascii.eqb (deref (tl q)) "C" || Ascii.eqb (deref (tl q)) "c");
      [rewrite snd_put; exact Hskip | exact Hskip].
  - cbn [snd]. intros [= <-]. destruct (Hstop eq_refl) as [_ Hstr].
    exists [], delim.
    split; [reflexivity | split; [reflexivity | split; [reflexivity|]]].
    rewrite Hstr. exact Hdt.
Qed.

End RenderFailure.

(** The single-pass loop ends in the invalid-delimiter error only at a
    ["%["] after which no closing bracket comes before the end of the
    format, and the string it reports is everything after that bracket. *)
Theorem render_failure_is_unterminated (node_name format d : list ascii)
    (task_count : Z) :
  snd (render_line node_name task_count format) = Some d ->
  unterminated_at format d.
Proof.
  apply (render_failure_sound node_name task_count d (length format)). lia.
Qed.

Lemma render_failure_is_unterminated_witness :
  unterminated_at (lit "%h%[:") (lit ":").
Proof.
  apply (render_failure_is_unterminated (lit "n001") (lit "%h%[:") (lit ":") 3).
  reflexivity.
Defined.

(** A lone [%] at the end of the format and a [%] followed by a character
    that starts no token are consumed without output: after whole tokens,
    the line is the one the format gives without them. *)
Theorem silently_consumed (node_name pre : list ascii) (task_count : Z) :
  whole_tokens pre ->
  render_line node_name task_count (pre ++ lit "%")
  = render_line node_name task_count pre
  /\ forall x rest,
       Ascii.eqb x "%" || Ascii.eqb x "h" || Ascii.eqb x "C"
       || Ascii.eqb x "c" || Ascii.eqb x "[" || Ascii.eqb x NUL = false ->
       render_line node_name task_count (pre ++ "%"%char :: x :: rest)
       = render_line node_name task_count (pre ++ rest).
Proof.
  intros Hpre. split.
  - transitivity (render_line node_name task_count (pre ++ []));
      [|rewrite app_nil_r; reflexivity].
    rewrite !(render_whole_tokens node_name task_count pre Hpre).
    reflexivity.
  - intros x rest Hx.
    rewrite !(render_whole_tokens node_name task_count pre Hpre).
    f_equal. rewrite render_line_equation_2. cbn [deref hd tl].
    repeat (apply orb_false_elim in Hx; destruct Hx as [Hx ?]).
    repeat match goal with H : Ascii.eqb x _ = false |- _ =>
             rewrite H; clear H end.
    reflexivity.
Qed.

Lemma silently_consumed_witness :
  render_line (lit "n001") 3 (lit "%h:%c%")
  = render_line (lit "n001") 3 (lit "%h:%c")
  /\ render_line (lit "n001") 3 (lit "%h:%c%q!")
     = render_line (lit "n001") 3 (lit "%h:%c!").
Proof.
  assert (H : whole_tokens (lit "%h:%c")).
  { apply wt_token; [reflexivity | reflexivity |].
    apply wt_literal; [reflexivity | reflexivity |].
    apply wt_token; [reflexivity | reflexivity | apply wt_nil]. }
  split.
  - exact (proj1 (silently_consumed (lit "n001") (lit "%h:%c") 3 H)).
  - exact (proj2 (silently_consumed (lit "n001") (lit "%h:%c") 3 H)
             "q"%char (lit "!") eq_refl).
Defined.

(** When the format is classified as having no count token and
    [no_repeats] is off, a run never exits and never reports an invalid
    delimiter, whatever the format, the hosts and the decoder: an
    unterminated ["%["] goes unnoticed. *)
Theorem repeat_mode_never_fails (format : list ascii)
    (hosts : list (list ascii)) (tc : task_count_t) :
  has_count format = false ->
  exited (print_machinefile hosts tc format false) = None
  /\ forall delim,
       ~ In (InvalidDelimiter delim)
            (stderr (print_machinefile hosts tc format false)).
Proof.
  intros H. unfold print_machinefile. rewrite H.
  apply repeat_branch_returns.
Qed.

Lemma repeat_mode_never_fails_witness :
  exited (print_machinefile [lit "n001"] (task_count_init (lit "2"))
            (lit "%h%[:") false) = None
  /\ forall delim,
       ~ In (InvalidDelimiter delim)
            (stderr (print_machinefile [lit "n001"] (task_count_init (lit "2"))
                       (lit "%h%[:") false)).
Proof.
  exact (repeat_mode_never_fails (lit "%h%[:") [lit "n001"]
           (task_count_init (lit "2")) eq_refl).
Defined.

(** The output for a longer host list begins with the output for the
    shorter one: hosts are answered in order, and what was written for the
    first hosts does not depend on the hosts that follow. *)
Theorem output_extends (format : list ascii) (no_repeats : bool)
    (hs1 hs2 : list (list ascii)) (tc : task_count_t) :
  exists more,
    stdout (print_machinefile (hs1 ++ hs2) tc format no_repeats)
    = stdout (print_machinefile hs1 tc format no_repeats) ++ more.
Proof.
  unfold print_machinefile. revert tc.
  induction hs1 as [|h hs1 IH]; intros tc.
  - eexists. reflexivity.
  - cbn [app machinefile_loop].
    destruct (task_count_next tc) as [[n tc'] d].
    destruct (n <=? 0); [exists []; reflexivity|].
    destruct (host_lines _ _ _ h n) as [o [delim|]].
    + exists []. cbn [stdout]. rewrite app_nil_r. reflexivity.
    + destruct (IH tc') as [more Hmore]. exists more.
      cbn [write stdout]. rewrite Hmore, app_assoc. reflexivity.
Qed.

Section LoopComposition.

Variable has_count_flag no_repeats : bool.
Variable format : list ascii.

Local Abbreviation loop := (machinefile_loop has_count_flag no_repeats format).

(** After hosts that are answered with positive counts and rendered, the
    loop goes on over the remaining hosts from the decoder as those calls
    left it. *)
Lemma loop_continues (hs1 hs2 : list (list ascii)) :
  forall (tc tc1 : task_count_t) (vs : list Z) (ds : list message),
    next_calls (length hs1) tc = (vs, ds, tc1) ->
    Forall (fun v => 0 < v) vs ->
    exited (loop hs1 tc) = None ->
    loop (hs1 ++ hs2) tc = write (stdout (loop hs1 tc)) (loop hs2 tc1).
Proof.
  induction hs1 as [|h hs1' IH]; intros tc tc1 vs ds Hcalls Hpos Hex.
  - cbn [length next_calls] in Hcalls. injection Hcalls as <- <- <-.
    cbn [app machinefile_loop stdout]. destruct (loop hs2 tc). reflexivity.
  - cbn [length next_calls] in Hcalls.
    destruct (task_count_next tc) as [[v tc'] d] eqn:Hnext.
    destruct (next_calls (length hs1') tc') as [[vs' ds'] tc2] eqn:Hrest.
    assert (Hvs : vs = v :: vs' /\ tc2 = tc1)
      by (destruct d; injection Hcalls as <- _ <-; auto).
    destruct Hvs as [-> ->].
    inversion Hpos as [|? ? Hv Hpos']; subst.
    cbn [app machinefile_loop] in *. rewrite Hnext in *.
    destruct (Z.leb_spec v 0); [lia|].
    destruct (host_lines _ _ _ h v) as [o [delim|]]; [discriminate Hex|].
    cbn [exited write] in Hex.
    rewrite (IH tc' tc1 vs' ds' Hrest Hpos' Hex).
    unfold write. cbn [stdout stderr exited]. rewrite app_assoc.
    reflexivity.
Qed.

End LoopComposition.

(** A parse error of the decoder is not fatal to the process.  When the
    first hosts are answered with positive counts and rendered, and the
    call for the next host fails to parse, the run keeps the output of the
    first hosts, writes the one diagnostic of the decoder, writes nothing
    for the remaining hosts, and returns to its caller without [exit]. *)
Theorem parse_error_ends_run (format : list ascii) (no_repeats : bool)
    (hs1 hs2 : list (list ascii)) (h : list ascii)
    (tc tc1 tc2 : task_count_t) (vs : list Z) (ds : list message)
    (r : Z) (m : message) :
  next_calls (length hs1) tc = (vs, ds, tc1) ->
  Forall (fun v => 0 < v) vs ->
  exited (print_machinefile hs1 tc format no_repeats) = None ->
  task_count_next tc1 = (r, tc2, Some m) ->
  print_machinefile (hs1 ++ h :: hs2) tc format no_repeats
  = {| stdout := stdout (print_machinefile hs1 tc format no_repeats);
       stderr := [m]; exited := None |}.
Proof.
  intros Hcalls Hpos Hex Hnext. unfold print_machinefile in *.
  rewrite (loop_continues _ _ _ hs1 (h :: hs2) tc tc1 vs ds Hcalls Hpos Hex).
  cbn [machinefile_loop]. rewrite Hnext.
  destruct (next_diagnostic tc1 tc2 r m Hnext) as [-> _].
  unfold write. cbn [stdout stderr exited diagnostics Z.leb Z.compare].
  rewrite app_nil_r. reflexivity.
Qed.

Lemma parse_error_ends_run_witness :
  print_machinefile [lit "n000"; lit "n001"; lit "n002"]
    (task_count_init (lit "2,x")) (lit "%h%[:]C") false
  = {| stdout := lit "n000:2" ++ [newline];
       stderr := [DecodeError InvalidIntegerValue 2 (lit "2,x")];
       exited := None |}.
Proof.
  apply (parse_error_ends_run (lit "%h%[:]C") false [lit "n000"]
           [lit "n002"] (lit "n001") (task_count_init (lit "2,x"))
           {| task_count_str := lit "2,x"; cur_ptr := 2; value := 2;
              count := 0 |}
           {| task_count_str := lit "2,x"; cur_ptr := 2; value := 2;
              count := 0 |} [2] [] (-1)).
  - reflexivity.
  - repeat constructor.
  - reflexivity.
  - reflexivity.
Defined.

(** * One line per task *)

Section LineCount.

Definition lines_of (out : list ascii) : nat :=
  count_occ ascii_dec out newline.

Lemma lines_of_app (a b : list ascii) :
  lines_of (a ++ b) = (lines_of a + lines_of b)%nat.
Proof. apply count_occ_app. Qed.

Lemma lines_of_none (a : list ascii) : ~ In newline a -> lines_of a = 0%nat.
Proof. intros H. apply count_occ_not_In. exact H. Qed.

Lemma c_str_incl (s : list ascii) (x : ascii) : In x (c_str s) -> In x s.
Proof.
  induction s as [|c s IH]; cbn [c_str]; [auto|].
  destruct (Ascii.eqb c NUL); [intros []|].
  intros [-> | H]; [left; reflexivity | right; auto].
Qed.

(** The repeat branch writes only characters of the format and of the host
    name. *)
Lemma plain_line_incl (node_name : list ascii) (x : ascii) :
  forall format, In x (plain_line node_name format) ->
                 In x format \/ In x node_name.
Proof.
  assert (H : forall k fmt, (length fmt <= k)%nat ->
            In x (plain_line node_name fmt) -> In x fmt \/ In x node_name).
  { induction k as [|k IH]; intros [|c p] Hk; cbn [plain_line];
      try (intros []); [simpl in Hk; lia|].
    simpl in Hk.
    destruct (Ascii.eqb c NUL); [intros []|].
    destruct (Ascii.eqb c "%") eqn:Hc.
    - destruct p as [|c1 p1]; [intros []|]. simpl in Hk.
      assert (Hrec : In x (plain_line node_name p1) ->
                     In x (c :: c1 :: p1) \/ In x node_name).
      { intros Hin. apply IH in Hin; [|lia].
        destruct Hin; [left; right; right; assumption | right; assumption]. }
      destruct (Ascii.eqb c1 "%") eqn:H1.
      { apply Ascii.eqb_eq in H1. subst c1.
        intros [<- | Hin]; [left; right; left; reflexivity | auto]. }
      destruct (Ascii.eqb c1 "h").
      { intros Hin. apply in_app_or in Hin. destruct Hin as [Hin | Hin];
          [right; apply c_str_incl; exact Hin | auto]. }
      destruct (Ascii.eqb c1 NUL); [intros [] | exact Hrec].
    - intros [<- | Hin]; [left; left; reflexivity|].
      apply IH in Hin; [|lia].
      destruct Hin; [left; right; assumption | right; assumption]. }
  intros format. apply (H (length format)). lia.
Qed.

Lemma lines_of_repeat (line : list ascii) (k : nat) :
  lines_of (concat (repeat line k)) = (k * lines_of line)%nat.
Proof.
  induction k as [|k IH]; [reflexivity|].
  cbn [repeat concat]. rewrite lines_of_app, IH. simpl. lia.
Qed.

Lemma lines_of_repeat_lines (node_name format : list ascii) (v : Z) :
  ~ In newline format -> ~ In newline node_name ->
  lines_of (repeat_lines node_name format v) = Z.to_nat v.
Proof.
  intros Hf Hh. unfold repeat_lines.
  rewrite lines_of_repeat, lines_of_app, lines_of_none.
  - cbn. destruct (ascii_dec newline newline); [lia | contradiction].
  - intros Hin. apply plain_line_incl in Hin. tauto.
Qed.

Lemma next_calls_length (k : nat) :
  forall tc vs ds tc1, next_calls k tc = (vs, ds, tc1) -> length vs = k.
Proof.
  induction k as [|k IH]; intros tc vs ds tc1; cbn [next_calls].
  - intros [= <- _ _]. reflexivity.
  - destruct (task_count_next tc) as [[v tc'] d].
    destruct (next_calls k tc') as [[vs' ds'] tc2] eqn:Hrest.
    intros [= <- _ _]. cbn [length]. f_equal. exact (IH _ _ _ _ Hrest).
Qed.

End LineCount.

(** In repeat mode the machine file has one line per task: when the format
    is classified as having no count token, [no_repeats] is off, neither the
    format nor a host name holds a newline, and the decoder answers every
    host with a positive count, the number of newlines written is the sum
    of the counts. *)
Theorem one_line_per_task (format : list ascii) (hosts : list (list ascii))
    (tc tc1 : task_count_t) (vs : list Z) (ds : list message) :
  has_count format = false ->
  ~ In newline format ->
  Forall (fun h => ~ In newline h) hosts ->
  next_calls (length hosts) tc = (vs, ds, tc1) ->
  Forall (fun v => 0 < v) vs ->
  Z.of_nat (lines_of (stdout (print_machinefile hosts tc format false)))
  = fold_right Z.add 0 vs.
Proof.
  intros Hc Hf Hh Hcalls Hpos.
  unfold print_machinefile in *. rewrite Hc in *.
  destruct (repeat_branch_returns format hosts tc) as [Hex _].
  destruct (loop_truncated false false format hosts [] tc tc1 vs ds
              Hcalls Hpos Hex (or_introl eq_refl)) as (_ & _ & ->).
  apply next_calls_length in Hcalls. clear Hex. revert vs Hpos Hcalls.
  induction Hh as [|h hosts' Hnl _ IH]; intros vs Hpos Hlen.
  - destruct vs; [reflexivity | discriminate Hlen].
  - destruct vs as [|v vs']; [discriminate Hlen|].
    injection Hlen as Hlen.
    inversion Hpos as [|? ? Hv Hpos']; subst.
    cbn [combine map concat fold_right fst snd].
    rewrite lines_of_app, Nat2Z.inj_add, (IH vs' Hpos' Hlen).
    unfold host_lines. cbn [orb fst].
    rewrite (lines_of_repeat_lines h format v Hf Hnl). lia.
Qed.

Lemma one_line_per_task_witness :
  Z.of_nat (lines_of (stdout (print_machinefile [lit "n000"; lit "n001"]
                                (task_count_init (lit "2,3")) (lit "%h") false)))
  = 5.
Proof.
  apply (one_line_per_task (lit "%h") [lit "n000"; lit "n001"]
           (task_count_init (lit "2,3"))
           {| task_count_str := lit "2,3"; cur_ptr := 3; value := 3;
              count := 0 |} [2; 3] []).
  - reflexivity.
  - intros H. repeat (destruct H as [H | H]; [discriminate H|]). exact H.
  - repeat constructor;
      intros H; repeat (destruct H as [H | H]; [discriminate H|]); exact H.
  - reflexivity.
  - repeat constructor.
Defined.

(** * Reading host expressions from a line of a node list *)

(** The loop that passes over white space. *)
Fixpoint skip_blanks (p : list ascii) : list ascii :=
  match p with
  | [] => []
  | c :: p' => if isspace c then skip_blanks p' else p
  end.

(** The loop that passes over an expression, up to white space or the end
    of the line: the characters passed over, and the pointer afterwards. *)
Fixpoint scan_expression (p : list ascii) : list ascii * list ascii :=
  match p with
  | [] => ([], [])
  | c :: p' =>
      if Ascii.eqb c NUL || isspace c then ([], p)
      else let '(s, q) := scan_expression p' in (c :: s, q)
  end.

Lemma skip_blanks_length (p : list ascii) :
  (length (skip_blanks p) <= length p)%nat.
Proof.
  induction p as [|c p IH]; simpl; [lia|].
  destruct (isspace c); simpl; lia.
Qed.

Lemma skip_blanks_stops (p : list ascii) :
  isspace (deref (skip_blanks p)) = false.
Proof.
  induction p as [|c p IH]; simpl; [reflexivity|].
  destruct (isspace c) eqn:Hc; [exact IH | exact Hc].
Qed.

Lemma scan_expression_length (p : list ascii) :
  (length (snd (scan_expression p)) <= length p)%nat.
Proof.
  induction p as [|c p IH]; simpl; [lia|].
  destruct (Ascii.eqb c NUL || isspace c); simpl; [lia|].
  destruct (scan_expression p); simpl in *; lia.
Qed.

(** The pointer after an expression: past the white space that ended it,
    which the source overwrites with NUL, or at the end of the line. *)
Definition after_expression (q : list ascii) : list ascii :=
  if Ascii.eqb (deref q) NUL then q else tl q.

Lemma line_progress (p : list ascii) :
  Ascii.eqb (deref (skip_blanks p)) NUL
  || Ascii.eqb (deref (skip_blanks p)) "#" = false ->
  (length (after_expression (snd (scan_expression (skip_blanks p))))
   < length p)%nat.
Proof.
  intros Hc. pose proof (skip_blanks_length p) as Hl.
  pose proof (skip_blanks_stops p) as Hb.
  apply orb_false_elim in Hc. destruct Hc as [Hn _].
  destruct (skip_blanks p) as [|c rest]; [discriminate Hn|].
  cbn [deref hd] in Hb, Hn.
  cbn [scan_expression]. rewrite Hn, Hb. cbn [orb].
  pose proof (scan_expression_length rest) as Hq.
  destruct (scan_expression rest) as [s q]. cbn [snd length] in *.
  unfold after_expression. pose proof (tl_length q).
  destruct (Ascii.eqb (deref q) NUL); lia.
Qed.

(** The expressions that the loop over one line of [add_from_file] hands
    to [slurm_hostlist_push], in order.  The test [p > s] of the source
    always holds there, since the character at [s] is neither NUL nor white
    space. *)
Equations? line_expressions (p : list ascii) : list (list ascii)
    by wf (length p) lt :=
  line_expressions p
    with inspect (Ascii.eqb (deref (skip_blanks p)) NUL
                  || Ascii.eqb (deref (skip_blanks p)) "#") := {
    | exist _ true _ => []
    | exist _ false Hc =>
        fst (scan_expression (skip_blanks p))
        :: line_expressions
             (after_expression (snd (scan_expression (skip_blanks p)))) }.
Proof. apply line_progress. exact Hc. Qed.

Section LineExpressions.

(** One turn of the loop over a line. *)
Lemma line_expressions_step (p : list ascii) :
  line_expressions p =
    if Ascii.eqb (deref (skip_blanks p)) NUL
       || Ascii.eqb (deref (skip_blanks p)) "#"
    then []
    else fst (scan_expression (skip_blanks p))
         :: line_expressions
              (after_expression (snd (scan_expression (skip_blanks p)))).
Proof.
  funelim (line_expressions p);
    match goal with E : _ || _ = _ |- _ => rewrite E end; reflexivity.
Qed.

(** A character of an expression: neither white space nor NUL. *)
Definition expression_char (c : ascii) : bool :=
  negb (Ascii.eqb c NUL || isspace c).

(** An expression as the loop delimits it: not empty, free of white space,
    and not starting with the comment character. *)
Definition expression (t : list ascii) : bool :=
  match t with
  | [] => false
  | c :: _ => negb (Ascii.eqb c "#") && forallb expression_char t
  end.

Lemma isspace_not_nul (b : ascii) : isspace b = true -> Ascii.eqb b NUL = false.
Proof.
  destruct (Ascii.eqb b NUL) eqn:H; [|reflexivity].
  apply Ascii.eqb_eq in H. subst b. discriminate.
Qed.

Lemma scan_expression_chars (p : list ascii) :
  forallb expression_char (fst (scan_expression p)) = true.
Proof.
  induction p as [|c p IH]; cbn [scan_expression]; [reflexivity|].
  destruct (Ascii.eqb c NUL || isspace c) eqn:Hc; [reflexivity|].
  destruct (scan_expression p) as [s q]. cbn [fst forallb] in *.
  unfold expression_char at 1. rewrite Hc, IH. reflexivity.
Qed.

Lemma scan_expression_token (t rest : list ascii) :
  forallb expression_char t = true ->
  expression_char (deref rest) = false ->
  scan_expression (t ++ rest) = (t, rest).
Proof.
  intros Ht Hr. induction t as [|c t IH].
  - destruct rest as [|b rest]; [reflexivity|].
    cbn [app scan_expression]. cbn [deref hd] in Hr.
    unfold expression_char in Hr. apply negb_false_iff in Hr.
    rewrite Hr. reflexivity.
  - cbn [forallb] in Ht. apply andb_prop in Ht. destruct Ht as [Hc Ht].
    unfold expression_char in Hc. apply negb_true_iff in Hc.
    cbn [app scan_expression]. rewrite Hc, (IH Ht). reflexivity.
Qed.

Lemma skip_blanks_expression (t rest : list ascii) :
  expression t = true -> skip_blanks (t ++ rest) = t ++ rest.
Proof.
  destruct t as [|c t]; [discriminate|]. cbn [expression forallb].
  intros H. apply andb_prop in H. destruct H as [_ H].
  apply andb_prop in H. destruct H as [Hc _].
  unfold expression_char in Hc. apply negb_true_iff, orb_false_elim in Hc.
  destruct Hc as [_ Hs]. cbn [app skip_blanks]. rewrite Hs. reflexivity.
Qed.

Lemma expression_head (t rest : list ascii) :
  expression t = true ->
  Ascii.eqb (deref (t ++ rest)) NUL || Ascii.eqb (deref (t ++ rest)) "#"
  = false.
Proof.
  destruct t as [|c t]; [discriminate|]. cbn [expression forallb].
  intros H. apply andb_prop in H. destruct H as [Hh H].
  apply andb_prop in H. destruct H as [Hc _].
  unfold expression_char in Hc. apply negb_true_iff, orb_false_elim in Hc.
  destruct Hc as [Hn _]. apply negb_true_iff in Hh.
  cbn [app deref hd]. rewrite Hn, Hh. reflexivity.
Qed.

(** An expression followed by white space is handed over, and the loop
    goes on after that white space. *)
Lemma line_expressions_cons (t rest : list ascii) (b : ascii) :
  expression t = true -> isspace b = true ->
  line_expressions (t ++ b :: rest) = t :: line_expressions rest.
Proof.
  intros Ht Hb. rewrite line_expressions_step.
  rewrite (skip_blanks_expression t _ Ht), (expression_head t _ Ht).
  assert (Hchars : forallb expression_char t = true).
  { destruct t; [discriminate|]. cbn [expression] in Ht.
    apply andb_prop in Ht. tauto. }
  rewrite scan_expression_token; [|exact Hchars|].
  - cbn [fst snd]. unfold after_expression. cbn [deref hd tl].
    rewrite (isspace_not_nul b Hb). reflexivity.
  - cbn [deref hd]. unfold expression_char. rewrite Hb, orb_true_r.
    reflexivity.
Qed.

Lemma line_expressions_blank (b : ascii) (p : list ascii) :
  isspace b = true -> line_expressions (b :: p) = line_expressions p.
Proof.
  intros Hb. rewrite (line_expressions_step (b :: p)),
    (line_expressions_step p). cbn [skip_blanks]. rewrite Hb. reflexivity.
Qed.

Lemma line_expressions_comment (rest : list ascii) :
  line_expressions ("#"%char :: rest) = [].
Proof. rewrite line_expressions_step. reflexivity. Qed.

End LineExpressions.

(** Every expression taken from a line is not empty, holds no white space
    and no NUL, and does not start with the comment character. *)
Theorem line_expressions_are_expressions (p : list ascii) :
  Forall (fun t => expression t = true) (line_expressions p).
Proof.
  funelim (line_expressions p); [constructor|].
  constructor; [|assumption].
  pose proof Hc as Hhead. clear - Hhead.
  pose proof (skip_blanks_stops p) as Hb.
  pose proof (scan_expression_chars (skip_blanks p)) as Hchars.
  apply orb_false_elim in Hhead. destruct Hhead as [Hn Hh].
  destruct (skip_blanks p) as [|c rest]; [discriminate Hn|].
  cbn [deref hd] in Hb, Hn, Hh. cbn [scan_expression] in *.
  rewrite Hn, Hb in *. cbn [orb] in *.
  destruct (scan_expression rest) as [s q]. cbn [fst] in *.
  cbn [expression]. rewrite Hh, Hchars. reflexivity.
Qed.

(** Expressions written one after the other, each followed by a white
    space character, are read back as they were written, in order; a [#] at
    the place where an expression would start ends the line, and a [#]
    inside an expression belongs to it. *)
Theorem line_expressions_round_trip (es : list (list ascii)) (b : ascii)
    (rest : list ascii) :
  Forall (fun t => expression t = true) es -> isspace b = true ->
  line_expressions (concat (map (fun t => t ++ [b]) es)) = es
  /\ line_expressions (concat (map (fun t => t ++ [b]) es) ++ "#"%char :: rest)
     = es.
Proof.
  intros Hes Hb. induction Hes as [|t es Ht _ [IH1 IH2]].
  - split; [reflexivity | apply line_expressions_comment].
  - cbn [map concat]. rewrite <- !app_assoc. cbn [app].
    rewrite !(line_expressions_cons t _ b Ht Hb), IH1, IH2.
    split; reflexivity.
Qed.

Lemma line_expressions_round_trip_witness :
  line_expressions (lit "n[000-002] g1#x ")
  = [lit "n[000-002]"; lit "g1#x"]
  /\ line_expressions (lit "n[000-002] g1#x # the rest")
     = [lit "n[000-002]"; lit "g1#x"].
Proof.
  apply (line_expressions_round_trip [lit "n[000-002]"; lit "g1#x"]
           " "%char (lit " the rest")).
  - repeat constructor.
  - reflexivity.
Defined.

(** * The program around the two algorithms

    [add_from_env], [add_from_file] and [main], over what they get from
    outside: the host-list library of Slurm, the environment, the files and
    the options that [getopt_long] reports.  A host list is the list of the
    names it holds, in the order in which [slurm_hostlist_shift] hands them
    out; [slurm_hostlist_push] appends the names of an expression. *)

Inductive snodelist_mode : Type :=
| snodelist_mode_expand
| snodelist_mode_compress
| snodelist_mode_machinefile.

(** The lines that the program itself writes to [stderr]. *)
Inductive diagnostic : Type :=
| from_machinefile (m : message)
| unable_to_open_nodelist (file : list ascii)
| invalid_variable_name
| invalid_file_path
| no_delimiter_string
| no_job_nodelist
| no_tasks_per_node.

(** How the process ends: [main] returns, [exit] is called, the behaviour
    is undefined (a null format reaches [strstr]), or the process does not
    end (the loop of [add_from_file] on a stream that fails to read). *)
Inductive ending : Type :=
| Return (status : Z)
| Exit (status : Z)
| Undefined
| Hangs.

Record program_run : Type := mk_run {
  written : list ascii;
  reported : list diagnostic;
  ended : ending
}.

(** What a stream reads from: the lines that [getline] finds, in order and
    finitely many, and what the read after the last of them meets: the end
    of the file, or an error (a directory, which [fopen] opens for reading;
    a standard input that is closed).  The error indicator of a stream is
    kept once it is set, and [getline] fails at once on a stream that has
    it, so a read that has failed fails again. *)
Inductive last_read : Type :=
| end_of_file
| read_error.

Definition input : Type := (list (list ascii) * last_read)%type.

(** A stream: what is left to read, and the end-of-file indicator. *)
Record FILE : Type := mk_FILE {
  unread : list (list ascii);
  last : last_read;
  eof_indicator : bool
}.

(** A stream on which nothing has been read yet. *)
Definition stream (i : input) : FILE :=
  {| unread := fst i; last := snd i; eof_indicator := false |}.

Definition feof (fptr : FILE) : bool := eof_indicator fptr.

(** [getline]: the next line, or nothing; the read that meets the end of
    the file sets the indicator, the read that fails does not.  (A last
    line without its newline sets the indicator one read earlier; the lines
    read are the same.) *)
Definition getline (fptr : FILE) : option (list ascii) * FILE :=
  match unread fptr with
  | line :: rest =>
      (Some line,
       {| unread := rest; last := last fptr;
          eof_indicator := eof_indicator fptr |})
  | [] =>
      match last fptr with
      | end_of_file =>
          (None,
           {| unread := []; last := end_of_file; eof_indicator := true |})
      | read_error => (None, fptr)
      end
  end.

(** The local variables of [main] that the option loop sets, and the
    standard input, the one stream that is still there after a call of
    [add_from_file]. *)
Record settings : Type := mk_settings {
  mode : snodelist_mode;
  do_uniq : bool;
  did_include_an_env_var : bool;
  no_repeats_flag : bool;
  delimiter : list ascii;
  machinefile_format : option (list ascii);
  hostlist : list (list ascii);
  standard_input : FILE
}.

Definition SLURM_JOB_NODELIST : list ascii := lit "SLURM_JOB_NODELIST".
Definition SLURM_TASKS_PER_NODE : list ascii := lit "SLURM_TASKS_PER_NODE".

Section Program.

(** Slurm: the names an expression stands for, the list without
    duplicates, the ranged string of a list. *)
Variable expand : list ascii -> list (list ascii).
Variable slurm_hostlist_uniq : list (list ascii) -> list (list ascii).
Variable slurm_hostlist_ranged_string_malloc :
  list (list ascii) -> option (list ascii).

(** The environment, what the files that [fopen] opens hold, what the
    standard input holds when the program starts, and the text of
    [usage]. *)
Variable getenv : list ascii -> option (list ascii).
Variable fopen : list ascii -> option input.
Variable stdin_input : input.
Variable usage : list ascii.

Definition slurm_hostlist_push (the_hostlist : list (list ascii))
    (expression : list ascii) : list (list ascii) :=
  the_hostlist ++ expand expression.

Definition add_from_env (the_hostlist : list (list ascii))
    (env_var_name : list ascii) : list (list ascii) :=
  match getenv env_var_name with
  | Some env_var_value => slurm_hostlist_push the_hostlist env_var_value
  | None => the_hostlist
  end.

(** The loop of [add_from_file] that reads until [feof]: the host list
    and the stream when the loop is left, or nothing when it is still
    running after [fuel] calls of [getline]. *)
Fixpoint read_loop (fuel : nat) (the_hostlist : list (list ascii))
    (fptr : FILE) : option (list (list ascii) * FILE) :=
  if feof fptr then Some (the_hostlist, fptr)
  else
    match fuel with
    | O => None
    | S fuel' =>
        let '(got, fptr') := getline fptr in
        read_loop fuel'
          (match got with
           | Some line =>
               if (0 <? length line)%nat
               then fold_left slurm_hostlist_push (line_expressions line)
                      the_hostlist
               else the_hostlist
           | None => the_hostlist
           end)
          fptr'
    end.

(** [add_from_file]: the value returned, the host list afterwards, what
    was written to [stderr] and the standard input afterwards; or nothing,
    when the loop does not end.  One call of [getline] more than there are
    lines to read is all the loop needs when it ends ([read_loop_ends],
    [read_loop_fails]). *)
Definition add_from_file (stdin : FILE) (the_hostlist : list (list ascii))
    (file : list ascii)
  : option (bool * list (list ascii) * list diagnostic * FILE) :=
  let is_stdin :=
    Ascii.eqb (deref file) "-" && Ascii.eqb (deref (tl file)) NUL in
  let fptr := if is_stdin then Some stdin else option_map stream (fopen file) in
  match fptr with
  | Some f =>
      match read_loop (S (length (unread f))) the_hostlist f with
      | Some (hl, f') => Some (true, hl, [], if is_stdin then f' else stdin)
      | None => None
      end
  | None => Some (false, the_hostlist, [unable_to_open_nodelist file], stdin)
  end.

Definition stop (o : list ascii) (e : list diagnostic) (status : Z)
  : settings + program_run :=
  inr {| written := o; reported := e; ended := Exit status |}.

Definition with_mode (s : settings) (m : snodelist_mode) : settings :=
  {| mode := m; do_uniq := do_uniq s;
     did_include_an_env_var := did_include_an_env_var s;
     no_repeats_flag := no_repeats_flag s; delimiter := delimiter s;
     machinefile_format := machinefile_format s; hostlist := hostlist s;
     standard_input := standard_input s |}.

Definition with_hostlist (s : settings) (hl : list (list ascii)) : settings :=
  {| mode := mode s; do_uniq := do_uniq s;
     did_include_an_env_var := did_include_an_env_var s;
     no_repeats_flag := no_repeats_flag s; delimiter := delimiter s;
     machinefile_format := machinefile_format s; hostlist := hl;
     standard_input := standard_input s |}.

Definition with_standard_input (s : settings) (stdin : FILE) : settings :=
  {| mode := mode s; do_uniq := do_uniq s;
     did_include_an_env_var := did_include_an_env_var s;
     no_repeats_flag := no_repeats_flag s; delimiter := delimiter s;
     machinefile_format := machinefile_format s; hostlist := hostlist s;
     standard_input := stdin |}.

(** The [switch] on one option that [getopt_long] returned, with its
    [optarg]. *)
Definition option_case (s : settings) (optc : ascii)
    (optarg : option (list ascii)) : settings + program_run :=
  if Ascii.eqb optc "h" then stop usage [] 0
  else if Ascii.eqb optc "e" then inl (with_mode s snodelist_mode_expand)
  else if Ascii.eqb optc "c" then inl (with_mode s snodelist_mode_compress)
  else if Ascii.eqb optc "i" then
    if Ascii.eqb optc ":" then
      inl (with_hostlist s (add_from_env (hostlist s) SLURM_JOB_NODELIST))
    else
      match optarg with
      | Some a =>
          if negb (Ascii.eqb (deref a) NUL)
          then inl (with_hostlist s (add_from_env (hostlist s) a))
          else stop [] [invalid_variable_name] EINVAL
      | None => stop [] [invalid_variable_name] EINVAL
      end
  else if Ascii.eqb optc "l" then
    match optarg with
    | Some a =>
        if negb (Ascii.eqb (deref a) NUL) then
          match add_from_file (standard_input s) (hostlist s) a with
          | Some (rc, hl, e, stdin) =>
              if rc then inl (with_standard_input (with_hostlist s hl) stdin)
              else stop [] e EINVAL
          | None => inr {| written := []; reported := []; ended := Hangs |}
          end
        else stop [] [invalid_file_path] EINVAL
    | None => stop [] [invalid_file_path] EINVAL
    end
  else if Ascii.eqb optc "u" then
    inl {| mode := mode s; do_uniq := true;
           did_include_an_env_var := did_include_an_env_var s;
           no_repeats_flag := no_repeats_flag s; delimiter := delimiter s;
           machinefile_format := machinefile_format s;
           hostlist := hostlist s;
           standard_input := standard_input s |}
  else if Ascii.eqb optc "d" then
    match optarg with
    | None => stop [] [no_delimiter_string] EINVAL
    | Some a =>
        inl {| mode := mode s; do_uniq := do_uniq s;
               did_include_an_env_var := did_include_an_env_var s;
               no_repeats_flag := no_repeats_flag s; delimiter := a;
               machinefile_format := machinefile_format s;
               hostlist := hostlist s;
               standard_input := standard_input s |}
    end
  else if Ascii.eqb optc "m" then inl (with_mode s snodelist_mode_machinefile)
  else if Ascii.eqb optc "f" then
    inl {| mode := mode s; do_uniq := do_uniq s;
           did_include_an_env_var := did_include_an_env_var s;
           no_repeats_flag := no_repeats_flag s; delimiter := delimiter s;
           machinefile_format := optarg; hostlist := hostlist s;
           standard_input := standard_input s |}
  else if Ascii.eqb optc "n" then
    inl {| mode := mode s; do_uniq := do_uniq s;
           did_include_an_env_var := did_include_an_env_var s;
           no_repeats_flag := true; delimiter := delimiter s;
           machinefile_format := machinefile_format s;
           hostlist := hostlist s;
           standard_input := standard_input s |}
  else inl s.

(** The loop over the options. *)
Fixpoint option_loop (s : settings) (opts : list (ascii * option (list ascii)))
  : settings + program_run :=
  match opts with
  | [] => inl s
  | (optc, optarg) :: opts' =>
      match option_case s optc optarg with
      | inl s' => option_loop s' opts'
      | inr r => inr r
      end
  end.

(** The loop of the expand mode: each name, after the delimiter from the
    second name on. *)
Fixpoint print_names (showDelim : bool) (delimiter : list ascii)
    (names : list (list ascii)) : list ascii :=
  match names with
  | [] => []
  | outNode :: names' =>
      (if showDelim then c_str delimiter else []) ++ c_str outNode
      ++ print_names true delimiter names'
  end.

(** The machine-file branch of [main]. *)
Definition machinefile_branch (s : settings) : program_run :=
  match getenv SLURM_JOB_NODELIST with
  | None => {| written := []; reported := [no_job_nodelist];
               ended := Exit EINVAL |}
  | Some node_list =>
      if Ascii.eqb (deref node_list) NUL then
        {| written := []; reported := [no_job_nodelist];
           ended := Exit EINVAL |}
      else
        match getenv SLURM_TASKS_PER_NODE with
        | None => {| written := []; reported := [no_tasks_per_node];
                     ended := Exit EINVAL |}
        | Some task_count_list =>
            if Ascii.eqb (deref task_count_list) NUL then
              {| written := []; reported := [no_tasks_per_node];
                 ended := Exit EINVAL |}
            else
              let hl := expand node_list in
              if (0 <? length hl)%nat then
                match machinefile_format s with
                | None => {| written := []; reported := [];
                             ended := Undefined |}
                | Some format =>
                    let r := print_machinefile hl
                               (task_count_init task_count_list) format
                               (no_repeats_flag s) in
                    {| written := stdout r;
                       reported := map from_machinefile (stderr r);
                       ended := match exited r with
                                | Some status => Exit status
                                | None => Return 0
                                end |}
                end
              else {| written := []; reported := []; ended := Return 0 |}
        end
  end.

(** The end of the other branch of [main]: a list that is not empty is
    shown in the mode chosen, after [slurm_hostlist_uniq] when asked. *)
Definition show_list (s : settings) (hl : list (list ascii)) : program_run :=
  if (0 <? length hl)%nat then
    let hl := if do_uniq s then slurm_hostlist_uniq hl else hl in
    match mode s with
    | snodelist_mode_expand =>
        {| written := print_names false (delimiter s) hl ++ [newline];
           reported := []; ended := Return 0 |}
    | snodelist_mode_compress =>
        match slurm_hostlist_ranged_string_malloc hl with
        | Some outList =>
            {| written := c_str outList ++ [newline]; reported := [];
               ended := Return 0 |}
        | None => {| written := []; reported := []; ended := Return 0 |}
        end
    | snodelist_mode_machinefile =>
        {| written := []; reported := []; ended := Return 0 |}
    end
  else {| written := []; reported := []; ended := Return 0 |}.

(** The other branch of [main]: the list is completed from the environment
    and from the arguments that are not options, and shown. *)
Definition listing_branch (s : settings) (args : list (list ascii))
  : program_run :=
  let hl :=
    if match args with [] => true | _ :: _ => false end
       && negb (did_include_an_env_var s)
    then add_from_env (hostlist s) SLURM_JOB_NODELIST else hostlist s in
  show_list s (fold_left slurm_hostlist_push args hl).

(** The local variables of [main] as they are initialized; the host list
    is [slurm_hostlist_create] of the empty expression.  Nothing has been
    read from the standard input. *)
Definition initial_settings : settings :=
  {| mode := snodelist_mode_expand; do_uniq := false;
     did_include_an_env_var := false; no_repeats_flag := false;
     delimiter := [newline]; machinefile_format := Some (lit "%h%[:]C");
     hostlist := expand [];
     standard_input := stream stdin_input |}.

(** [main], over the options that [getopt_long] reports in turn and the
    arguments left after them. *)
Definition main (opts : list (ascii * option (list ascii)))
    (args : list (list ascii)) : program_run :=
  match option_loop initial_settings opts with
  | inr r => r
  | inl s =>
      match mode s with
      | snodelist_mode_machinefile => machinefile_branch s
      | _ => listing_branch s args
      end
  end.

End Program.

(** * Properties of the program *)

Section ProgramFacts.

Variable expand : list ascii -> list (list ascii).
Variable slurm_hostlist_uniq : list (list ascii) -> list (list ascii).
Variable slurm_hostlist_ranged_string_malloc :
  list (list ascii) -> option (list ascii).
Variable getenv : list ascii -> option (list ascii).
Variable fopen : list ascii -> option input.
Variable stdin_input : input.
Variable usage : list ascii.

Local Abbreviation run_options :=
  (option_loop expand getenv fopen usage).
Local Abbreviation run_option :=
  (option_case expand getenv fopen usage).
Local Abbreviation run_main :=
  (main expand slurm_hostlist_uniq slurm_hostlist_ranged_string_malloc
        getenv fopen stdin_input usage).

Lemma option_loop_app (s : settings)
    (opts1 opts2 : list (ascii * option (list ascii))) :
  run_options s (opts1 ++ opts2) =
    match run_options s opts1 with
    | inl s' => run_options s' opts2
    | inr r => inr r
    end.
Proof.
  revert s. induction opts1 as [|[optc optarg] opts1 IH]; intros s.
  - reflexivity.
  - cbn [app option_loop]. destruct (run_option s optc optarg); [apply IH|].
    reflexivity.
Qed.

(** No option sets [did_include_an_env_var]. *)
Lemma option_case_keeps_flag (s s' : settings) (optc : ascii)
    (optarg : option (list ascii)) :
  run_option s optc optarg = inl s' ->
  did_include_an_env_var s' = did_include_an_env_var s.
Proof.
  unfold option_case, stop.
  repeat match goal with
         | |- context [add_from_file ?a ?b ?c ?d ?e] =>
             destruct (add_from_file a b c d e) as [[[[[] ?] ?] ?]|]
         | |- context [if ?b then _ else _] => destruct b
         | |- context [match ?o with Some _ => _ | None => _ end] =>
             destruct o
         end;
    try discriminate; intros [= <-]; reflexivity.
Qed.

Lemma option_loop_keeps_flag (opts : list (ascii * option (list ascii))) :
  forall s s', run_options s opts = inl s' ->
               did_include_an_env_var s' = did_include_an_env_var s.
Proof.
  induction opts as [|[optc optarg] opts IH]; intros s s'; cbn [option_loop].
  - intros [= <-]. reflexivity.
  - destruct (run_option s optc optarg) as [s1|r] eqn:H1; [|discriminate].
    intros H. rewrite (IH _ _ H). exact (option_case_keeps_flag _ _ _ _ H1).
Qed.

End ProgramFacts.

Section ProgramProperties.

Variable expand : list ascii -> list (list ascii).
Variable slurm_hostlist_uniq : list (list ascii) -> list (list ascii).
Variable slurm_hostlist_ranged_string_malloc :
  list (list ascii) -> option (list ascii).
Variable getenv : list ascii -> option (list ascii).
Variable fopen : list ascii -> option input.
Variable stdin_input : input.
Variable usage : list ascii.

Local Abbreviation run_options :=
  (option_loop expand getenv fopen usage).
Local Abbreviation run_main :=
  (main expand slurm_hostlist_uniq slurm_hostlist_ranged_string_malloc
        getenv fopen stdin_input usage).
Local Abbreviation start := (initial_settings expand stdin_input).

Lemma push_all (es : list (list ascii)) :
  forall hl,
    fold_left (slurm_hostlist_push expand) es hl = hl ++ flat_map expand es.
Proof.
  induction es as [|e es IH]; intros hl; cbn [fold_left flat_map].
  - rewrite app_nil_r. reflexivity.
  - rewrite IH. unfold slurm_hostlist_push. rewrite app_assoc. reflexivity.
Qed.

(** A stream whose end-of-file indicator is set is not read. *)
Lemma read_loop_at_end (fuel : nat) (hl : list (list ascii)) (f : FILE) :
  feof f = true -> read_loop expand fuel hl f = Some (hl, f).
Proof. intros H. destruct fuel; cbn [read_loop]; rewrite H; reflexivity. Qed.

(** A stream that meets the end of the file: the loop is left once every
    line has been read and one more read has set the indicator. *)
Lemma read_loop_ends (lines : list (list ascii)) :
  forall (fuel : nat) (hl : list (list ascii)),
    (length lines < fuel)%nat ->
    read_loop expand fuel hl
      {| unread := lines; last := end_of_file; eof_indicator := false |}
    = Some (hl ++ flat_map expand (flat_map line_expressions lines),
            {| unread := []; last := end_of_file; eof_indicator := true |}).
Proof.
  induction lines as [|line lines IH]; intros [|fuel] hl Hfuel;
    cbn [length] in Hfuel; try lia.
  - cbn [read_loop feof eof_indicator getline unread last flat_map].
    rewrite app_nil_r. apply read_loop_at_end. reflexivity.
  - cbn [read_loop feof eof_indicator getline unread last flat_map].
    rewrite IH by lia.
    replace (if (0 <? length line)%nat
             then fold_left (slurm_hostlist_push expand)
                    (line_expressions line) hl
             else hl)
      with (hl ++ flat_map expand (line_expressions line)).
    + rewrite flat_map_app, <- app_assoc. reflexivity.
    + destruct line as [|c line]; cbn [length Nat.ltb Nat.leb].
      * rewrite line_expressions_step. cbn. apply app_nil_r.
      * symmetry. apply push_all.
Qed.

(** A stream on which a read fails: the indicator is never set, and the
    loop is still running after any number of reads. *)
Lemma read_loop_fails (fuel : nat) :
  forall (lines : list (list ascii)) (hl : list (list ascii)),
    read_loop expand fuel hl
      {| unread := lines; last := read_error; eof_indicator := false |}
    = None.
Proof.
  induction fuel as [|fuel IH]; intros lines hl; [reflexivity|].
  destruct lines as [|line lines];
    cbn [read_loop feof eof_indicator getline unread last]; apply IH.
Qed.

(** [add_from_file] on the three kinds of stream.  A file that does not
    open: [false] is returned, the failure is reported and the list is left
    as it was.  A stream that is read to the end of the file: the loop ends
    (with any number of reads above the number of lines), [true] is
    returned, also when the file holds no expression, and the list has kept
    its names and got the names of the expressions of the file, line after
    line and in the order of each line.  A stream on which a read fails:
    the loop never ends, as nothing but the end-of-file indicator is
    tested.  The name ["-"] stands for the standard input, which is left at
    its end: a second reading finds the indicator set and adds nothing. *)
Theorem add_from_file_outcomes (stdin : FILE)
    (the_hostlist : list (list ascii)) (file : list ascii) :
  match (if Ascii.eqb (deref file) "-" && Ascii.eqb (deref (tl file)) NUL
         then Some stdin else option_map stream (fopen file)) with
  | None =>
      add_from_file expand fopen stdin the_hostlist file
      = Some (false, the_hostlist, [unable_to_open_nodelist file], stdin)
  | Some f =>
      if feof f then
        add_from_file expand fopen stdin the_hostlist file
        = Some (true, the_hostlist, [], stdin)
      else
        match last f with
        | end_of_file =>
            let names := flat_map expand
                           (flat_map line_expressions (unread f)) in
            let at_end :=
              {| unread := []; last := end_of_file; eof_indicator := true |} in
            add_from_file expand fopen stdin the_hostlist file
            = Some (true, the_hostlist ++ names, [],
                    if Ascii.eqb (deref file) "-"
                       && Ascii.eqb (deref (tl file)) NUL
                    then at_end else stdin)
            /\ (forall fuel,
                   (length (unread f) < fuel)%nat ->
                   read_loop expand fuel the_hostlist f
                   = Some (the_hostlist ++ names, at_end))
        | read_error =>
            add_from_file expand fopen stdin the_hostlist file = None
            /\ (forall fuel, read_loop expand fuel the_hostlist f = None)
        end
  end.
Proof.
  unfold add_from_file.
  destruct (Ascii.eqb (deref file) "-" && Ascii.eqb (deref (tl file)) NUL)
    eqn:Hdash.
  - destruct stdin as [lines l e]. unfold feof. cbn [eof_indicator last unread].
    destruct e.
    + rewrite read_loop_at_end by reflexivity. reflexivity.
    + destruct l.
      * split; [|intros fuel Hfuel; apply read_loop_ends; exact Hfuel].
        rewrite read_loop_ends by lia. reflexivity.
      * split; [|intros fuel; apply read_loop_fails].
        rewrite read_loop_fails. reflexivity.
  - destruct (fopen file) as [[lines l]|]; [|reflexivity].
    cbn [option_map feof]. unfold stream.
    cbn [fst snd eof_indicator last unread].
    destruct l.
    + split; [|intros fuel Hfuel; apply read_loop_ends; exact Hfuel].
      rewrite read_loop_ends by lia. reflexivity.
    + split; [|intros fuel; apply read_loop_fails].
      rewrite read_loop_fails. reflexivity.
Qed.

(** When [getopt_long] reports the option [i] without an argument or
    with an empty one (the long form [--include-env] without
    [=<varname>], or an empty name), the program ends with [EINVAL]: the
    test that would select the default variable compares the option
    character, which is [i] there, with a colon.  A short [-i] that ends the
    command line is not such a report: the option string asks for its
    argument, and [getopt_long] reports a question mark. *)
Theorem include_env_needs_a_name
    (opts1 opts2 : list (ascii * option (list ascii)))
    (args : list (list ascii)) (s : settings) (optarg : option (list ascii)) :
  run_options start opts1 = inl s ->
  match optarg with
  | Some a => Ascii.eqb (deref a) NUL
  | None => true
  end = true ->
  run_main (opts1 ++ ("i"%char, optarg) :: opts2) args
  = {| written := []; reported := [invalid_variable_name];
       ended := Exit EINVAL |}.
Proof.
  intros Hopts Harg. unfold main.
  rewrite option_loop_app, Hopts. cbn [option_loop].
  unfold option_case. cbn [Ascii.eqb Bool.eqb].
  destruct optarg as [a|]; [rewrite Harg|]; reflexivity.
Qed.

(** Without arguments after the options, the names of
    [SLURM_JOB_NODELIST] are appended to the list, also when options [-i]
    or [-l] have already filled it: nothing ever records that a variable
    was included. *)
Theorem environment_is_always_consulted
    (opts : list (ascii * option (list ascii))) (s : settings) :
  run_options start opts = inl s ->
  mode s <> snodelist_mode_machinefile ->
  run_main opts []
  = show_list slurm_hostlist_uniq slurm_hostlist_ranged_string_malloc s
      (add_from_env expand getenv (hostlist s) SLURM_JOB_NODELIST).
Proof.
  intros Hopts Hmode. unfold main. rewrite Hopts.
  pose proof (option_loop_keeps_flag expand getenv fopen usage
                opts _ _ Hopts) as Hflag.
  cbn [initial_settings did_include_an_env_var] in Hflag.
  unfold listing_branch. rewrite Hflag. cbn [negb andb fold_left].
  destruct (mode s); try reflexivity. contradiction.
Qed.

(** In machine-file mode both variables must be set and not empty:
    otherwise nothing is written to the standard output and the program ends
    with [EINVAL], whatever the options and the arguments. *)
Theorem machinefile_needs_environment
    (opts : list (ascii * option (list ascii))) (args : list (list ascii))
    (s : settings) :
  run_options start opts = inl s ->
  mode s = snodelist_mode_machinefile ->
  let unset name :=
    match getenv name with
    | Some v => Ascii.eqb (deref v) NUL
    | None => true
    end in
  (unset SLURM_JOB_NODELIST = true ->
   run_main opts args
   = {| written := []; reported := [no_job_nodelist];
        ended := Exit EINVAL |})
  /\ (unset SLURM_JOB_NODELIST = false ->
      unset SLURM_TASKS_PER_NODE = true ->
      run_main opts args
      = {| written := []; reported := [no_tasks_per_node];
           ended := Exit EINVAL |}).
Proof.
  intros Hopts Hmode. unfold main. rewrite Hopts, Hmode.
  unfold machinefile_branch. split.
  - intros H. destruct (getenv SLURM_JOB_NODELIST) as [v|]; [rewrite H|];
      reflexivity.
  - intros H1 H2. destruct (getenv SLURM_JOB_NODELIST) as [v|];
      [rewrite H1 | discriminate H1].
    destruct (getenv SLURM_TASKS_PER_NODE) as [w|]; [rewrite H2|];
      reflexivity.
Qed.

(** A parse error of the task counts does not change the exit status.  In
    machine-file mode, when the first hosts are answered with positive
    counts and rendered and the call for the next host fails to parse, the
    program writes the lines of the first hosts, reports the diagnostic of
    the decoder, and returns 0. *)
Theorem parse_error_returns_zero
    (opts : list (ascii * option (list ascii))) (args : list (list ascii))
    (s : settings) (node_list task_count_list format : list ascii)
    (hs1 hs2 : list (list ascii)) (h : list ascii)
    (tc1 tc2 : task_count_t) (vs : list Z) (ds : list message)
    (r : Z) (m : message) :
  run_options start opts = inl s ->
  mode s = snodelist_mode_machinefile ->
  machinefile_format s = Some format ->
  getenv SLURM_JOB_NODELIST = Some node_list ->
  Ascii.eqb (deref node_list) NUL = false ->
  getenv SLURM_TASKS_PER_NODE = Some task_count_list ->
  Ascii.eqb (deref task_count_list) NUL = false ->
  expand node_list = hs1 ++ h :: hs2 ->
  next_calls (length hs1) (task_count_init task_count_list) = (vs, ds, tc1) ->
  Forall (fun v => 0 < v) vs ->
  exited (print_machinefile hs1 (task_count_init task_count_list) format
            (no_repeats_flag s)) = None ->
  task_count_next tc1 = (r, tc2, Some m) ->
  run_main opts args
  = {| written := stdout (print_machinefile hs1
                            (task_count_init task_count_list) format
                            (no_repeats_flag s));
       reported := [from_machinefile m];
       ended := Return 0 |}.
Proof.
  intros Hopts Hmode Hfmt Hnl Hnl0 Htl Htl0 Hexp Hcalls Hpos Hex Hnext.
  unfold main. rewrite Hopts, Hmode. unfold machinefile_branch.
  rewrite Hnl, Hnl0, Htl, Htl0, Hexp, Hfmt.
  replace (0 <? length (hs1 ++ h :: hs2))%nat with true
    by (symmetry; apply Nat.ltb_lt; rewrite length_app; simpl; lia).
  unfold print_machinefile in *.
  rewrite (loop_continues _ _ _ hs1 (h :: hs2) _ tc1 vs ds Hcalls Hpos Hex).
  cbn [machinefile_loop]. rewrite Hnext.
  destruct (next_diagnostic tc1 tc2 r m Hnext) as [-> _].
  cbn [Z.leb Z.compare write stdout stderr exited diagnostics map].
  rewrite app_nil_r. reflexivity.
Qed.

Lemma print_names_lines (names : list (list ascii)) (showDelim : bool) :
  Forall (fun n => ~ In newline n) names ->
  lines_of (print_names showDelim [newline] names)
  = (length names - (if showDelim then 0 else 1))%nat.
Proof.
  intros H. revert showDelim.
  induction H as [|n names Hn _ IH]; intros showDelim.
  - destruct showDelim; reflexivity.
  - cbn [print_names length]. rewrite !lines_of_app, (IH true).
    rewrite (lines_of_none (c_str n))
      by (intros Hin; apply c_str_incl in Hin; contradiction).
    destruct showDelim; cbn; lia.
Qed.

Lemma print_names_newlines (names : list (list ascii)) :
  forall n : list ascii,
    c_str n ++ print_names true [newline] names ++ [newline]
    = concat (map (fun n => c_str n ++ [newline]) (n :: names)).
Proof.
  induction names as [|m names IH]; intros n.
  - cbn [print_names map concat]. rewrite !app_nil_r. reflexivity.
  - cbn [print_names]. change (c_str [newline]) with [newline].
    rewrite <- !app_assoc, IH. cbn [map concat app].
    rewrite <- !app_assoc. reflexivity.
Qed.

(** With the default delimiter the expand mode writes one line per name
    and nothing else: the output is the names in order, each followed by a
    newline.  An empty list gives no output at all, not even the final
    newline; a list whose names hold no newline gives as many newlines as
    it has names. *)
Theorem expand_mode_output (s : settings) (names : list (list ascii)) :
  mode s = snodelist_mode_expand -> do_uniq s = false ->
  delimiter s = [newline] ->
  written (show_list slurm_hostlist_uniq
             slurm_hostlist_ranged_string_malloc s names)
  = concat (map (fun n => c_str n ++ [newline]) names)
  /\ (names = [] ->
      show_list slurm_hostlist_uniq slurm_hostlist_ranged_string_malloc
        s names
      = {| written := []; reported := []; ended := Return 0 |})
  /\ (Forall (fun n => ~ In newline n) names ->
      lines_of (written (show_list slurm_hostlist_uniq
                           slurm_hostlist_ranged_string_malloc s names))
      = length names).
Proof.
  intros Hmode Hu Hd. unfold show_list.
  destruct names as [|n names].
  - repeat split; reflexivity.
  - cbn [length Nat.ltb Nat.leb]. rewrite Hmode, Hu, Hd. cbn [written].
    split; [|split].
    + cbn [print_names app]. rewrite <- app_assoc.
      apply print_names_newlines.
    + discriminate.
    + intros Hnames.
      rewrite lines_of_app, (print_names_lines (n :: names) false Hnames).
      cbn. destruct (ascii_dec newline newline); [lia | contradiction].
Qed.

End ProgramProperties.

(** ** The program on a small environment

    A stand-in for what comes from outside, to run the program on: an
    expression is a list of names separated by commas, the environment
    holds three variables, and there are one node list and one
    directory. *)

Module Example.

Fixpoint fields (e : list ascii) : list ascii * list (list ascii) :=
  match e with
  | [] => ([], [])
  | c :: e' =>
      let '(f, fs) := fields e' in
      if Ascii.eqb c "," then ([], f :: fs) else (c :: f, fs)
  end.

Definition expand (e : list ascii) : list (list ascii) :=
  match e with
  | [] => []
  | _ :: _ => let '(f, fs) := fields e in f :: fs
  end.

Definition same (a b : list ascii) : bool :=
  starts_with a b && starts_with b a.

Definition getenv (name : list ascii) : option (list ascii) :=
  if same name SLURM_JOB_NODELIST then Some (lit "n000,n001")
  else if same name SLURM_TASKS_PER_NODE then Some (lit "2,x")
  else if same name (lit "MYLIST") then Some (lit "g1")
  else None.

Definition no_variable (name : list ascii) : option (list ascii) := None.

(** One node list of three lines, one directory, and no other file. *)
Definition fopen (file : list ascii) : option input :=
  if same file (lit "hosts") then
    Some ([lit "n000 n001" ++ [newline]; lit "# spares" ++ [newline];
           lit "  g1  g2 # g3"], end_of_file)
  else if same file (lit "/tmp") then Some ([], read_error)
  else None.

(** A standard input that holds nothing. *)
Definition no_input : input := ([], end_of_file).

Definition run (getenv : list ascii -> option (list ascii)) :=
  main expand (fun hl => hl) (fun hl => None) getenv fopen no_input [].

End Example.

Lemma include_env_needs_a_name_witness :
  Example.run Example.getenv [("u"%char, None); ("i"%char, None)] []
  = {| written := []; reported := [invalid_variable_name];
       ended := Exit EINVAL |}.
Proof.
  apply (include_env_needs_a_name Example.expand (fun hl => hl)
           (fun hl => None) Example.getenv Example.fopen Example.no_input []
           [("u"%char, None)] [] [] _ None eq_refl eq_refl).
Defined.

Lemma environment_is_always_consulted_witness :
  Example.run Example.getenv [("i"%char, Some (lit "MYLIST"))] []
  = {| written := lit "g1" ++ [newline] ++ lit "n000" ++ [newline]
                  ++ lit "n001" ++ [newline];
       reported := []; ended := Return 0 |}.
Proof.
  apply (environment_is_always_consulted Example.expand (fun hl => hl)
           (fun hl => None) Example.getenv Example.fopen Example.no_input []
           [("i"%char, Some (lit "MYLIST"))] _ eq_refl).
  discriminate.
Defined.

Lemma machinefile_needs_environment_witness :
  Example.run Example.no_variable [("m"%char, None)] [lit "n000"]
  = {| written := []; reported := [no_job_nodelist]; ended := Exit EINVAL |}.
Proof.
  apply (proj1 (machinefile_needs_environment Example.expand (fun hl => hl)
                  (fun hl => None) Example.no_variable Example.fopen Example.no_input []
                  [("m"%char, None)] [lit "n000"] _ eq_refl eq_refl)).
  reflexivity.
Defined.

Lemma parse_error_returns_zero_witness :
  Example.run Example.getenv [("m"%char, None)] []
  = {| written := lit "n000:2" ++ [newline];
       reported := [from_machinefile
                      (DecodeError InvalidIntegerValue 2 (lit "2,x"))];
       ended := Return 0 |}.
Proof.
  apply (parse_error_returns_zero Example.expand (fun hl => hl)
           (fun hl => None) Example.getenv Example.fopen Example.no_input []
           [("m"%char, None)] [] _ (lit "n000,n001") (lit "2,x")
           (lit "%h%[:]C") [lit "n000"] [] (lit "n001")
           {| task_count_str := lit "2,x"; cur_ptr := 2; value := 2;
              count := 0 |}
           {| task_count_str := lit "2,x"; cur_ptr := 2; value := 2;
              count := 0 |} [2] [] (-1)
           (DecodeError InvalidIntegerValue 2 (lit "2,x"))
           eq_refl eq_refl eq_refl eq_refl eq_refl eq_refl eq_refl eq_refl
           eq_refl).
  - repeat constructor.
  - reflexivity.
  - reflexivity.
Defined.

Lemma expand_mode_output_witness :
  written (Example.run Example.getenv [] [])
  = lit "n000" ++ [newline] ++ lit "n001" ++ [newline].
Proof.
  apply (expand_mode_output (fun hl => hl) (fun hl => None)
           (initial_settings Example.expand Example.no_input)
           [lit "n000"; lit "n001"] eq_refl eq_refl eq_refl).
Defined.

(** * The machine file of a well-formed task-count string *)

Section MachineFile.

Lemma next_calls_prefix (k n : nat) (tc tc' : task_count_t) (vs : list Z) :
  (k <= n)%nat -> next_calls n tc = (vs, [], tc') ->
  exists tc1, next_calls k tc = (firstn k vs, [], tc1).
Proof.
  intros Hk Hn. replace n with (k + (n - k))%nat in Hn by lia.
  rewrite next_calls_app in Hn.
  destruct (next_calls k tc) as [[vs1 ds1] tc1] eqn:H1.
  destruct (next_calls (n - k) tc1) as [[vs2 ds2] tc2].
  injection Hn as <- Hds _. apply app_eq_nil in Hds. destruct Hds as [-> _].
  exists tc1. apply next_calls_length in H1.
  rewrite firstn_app, <- H1, firstn_all, Nat.sub_diag, firstn_O, app_nil_r.
  reflexivity.
Qed.

Variable has_count_flag no_repeats : bool.
Variable format : list ascii.
Variable line : list ascii -> Z -> list ascii.
Hypothesis renders :
  forall node_name task_count,
    0 < task_count ->
    host_lines has_count_flag no_repeats format node_name task_count
    = (line node_name task_count, None).

(** With a format that renders every host, the hosts that the decoder
    answers with positive counts get their lines, in order. *)
Lemma loop_renders (hs : list (list ascii)) :
  forall (tc tc1 : task_count_t) (vs : list Z) (ds : list message),
    next_calls (length hs) tc = (vs, ds, tc1) ->
    Forall (fun v => 0 < v) vs ->
    machinefile_loop has_count_flag no_repeats format hs tc
    = {| stdout := concat (map (fun hv => line (fst hv) (snd hv))
                               (combine hs vs));
         stderr := []; exited := None |}.
Proof.
  induction hs as [|h hs IH]; intros tc tc1 vs ds Hcalls Hpos.
  - reflexivity.
  - cbn [length next_calls] in Hcalls.
    destruct (task_count_next tc) as [[v tc'] d] eqn:Hnext.
    destruct (next_calls (length hs) tc') as [[vs' ds'] tc2] eqn:Hrest.
    assert (Hvs : vs = v :: vs')
      by (destruct d; injection Hcalls as <- _ _; reflexivity).
    subst vs. inversion Hpos as [|? ? Hv Hpos']; subst.
    cbn [machinefile_loop]. rewrite Hnext.
    destruct (Z.leb_spec v 0); [lia|].
    rewrite (renders h v Hv), (IH tc' tc2 vs' ds' Hrest Hpos').
    reflexivity.
Qed.

End MachineFile.

Lemma positive_prefix (k : nat) (vs : list Z) :
  Forall (fun v => 0 < v) vs -> Forall (fun v => 0 < v) (firstn k vs).
Proof.
  intros H. revert k. induction H as [|v vs Hv _ IH]; intros [|k];
    cbn [firstn]; constructor; auto.
Qed.

(** The line of the default format: the host name, and a colon and the
    count when the count is above 1. *)
Definition default_line (node_name : list ascii) (task_count : Z)
  : list ascii :=
  c_str node_name
  ++ (if task_count <=? 1 then [] else lit ":" ++ decimal task_count)
  ++ [newline].

Lemma default_format_line (no_repeats : bool) (node_name : list ascii)
    (task_count : Z) :
  host_lines (has_count (lit "%h%[:]C")) no_repeats (lit "%h%[:]C")
    node_name task_count
  = (default_line node_name task_count, None).
Proof.
  unfold host_lines, default_line.
  change (has_count (lit "%h%[:]C")) with true. cbn [orb].
  change (lit "%h%[:]C")
    with ("%"%char :: "h"%char
          :: "%"%char :: "["%char :: lit ":" ++ "]"%char :: "C"%char :: []).
  rewrite render_host, (render_delimited node_name task_count (lit ":") "C" []
                          eq_refl).
  rewrite render_line_equation_1. cbn [Ascii.eqb Bool.eqb andb orb].
  destruct (task_count <=? 1); unfold put; cbn [fst snd];
    rewrite ?app_nil_r, <- ?app_assoc; reflexivity.
Qed.

(** End to end, for the default format.  When the task-count string is a
    string of the grammar (optionally with a trailing comma) whose values
    are numbers from 1 to [INT_MAX], whose repeat counts are numbers from 1
    to [INT_MAX], and which stands for at least as many counts as there are
    hosts, the machine file is one line per host, in order: the name of the
    host, followed by a colon and the number its entry denotes when that
    number is above 1.  Nothing goes to the error stream and the run
    returns. *)
Theorem machine_file_of_grammar (es : list Grammar.RunLengthEntry)
    (trail : list ascii) (hosts : list (list ascii)) (no_repeats : bool) :
  es <> [] ->
  forallb Grammar.entry_syntax es = true ->
  forallb Grammar.value_in_range es = true ->
  forallb Grammar.repeat_in_range es = true ->
  trail = [] \/ trail = [","%char] ->
  Forall (fun e => 0 < Grammar.entry_value e) es ->
  (length hosts <= length (Grammar.expansion es))%nat ->
  print_machinefile hosts (task_count_init (Grammar.spec_text es ++ trail))
    (lit "%h%[:]C") no_repeats
  = {| stdout := concat (map (fun hv => default_line (fst hv) (snd hv))
                             (combine hosts (Grammar.expansion es)));
       stderr := []; exited := None |}.
Proof.
  intros Hne Hs Hv Hr Ht Hpos Hlen.
  destruct (decode_pending trail es Ht Hs Hr
              (task_count_init (Grammar.spec_text es ++ trail)) eq_refl)
    as (tc' & Hall & _).
  { destruct es; [contradiction | reflexivity]. }
  rewrite (stored_expansion_is es Hv) in Hall.
  destruct (next_calls_prefix _ _ _ _ _ Hlen Hall) as (tc1 & Hcalls).
  assert (Hvs : Forall (fun v => 0 < v) (Grammar.expansion es)).
  { clear - Hpos. induction Hpos as [|e es He _ IH]; [constructor|].
    cbn [Grammar.expansion flat_map]. apply Forall_app. split; [|exact IH].
    apply Forall_forall. intros v Hv. apply repeat_spec in Hv. subst v.
    exact He. }
  unfold print_machinefile.
  rewrite (loop_renders _ no_repeats _ default_line
             (fun h n _ => default_format_line no_repeats h n)
             hosts _ tc1 _ [] Hcalls).
  - rewrite <- combine_firstn_l. reflexivity.
  - apply positive_prefix. exact Hvs.
Qed.

Lemma machine_file_of_grammar_witness :
  print_machinefile [lit "n000"; lit "n001"; lit "n002"]
    (task_count_init (lit "2,1(x2)")) (lit "%h%[:]C") false
  = {| stdout := lit "n000:2" ++ [newline] ++ lit "n001" ++ [newline]
                 ++ lit "n002" ++ [newline];
       stderr := []; exited := None |}.
Proof.
  apply (machine_file_of_grammar
           [Grammar.mk_entry (lit "2") None;
            Grammar.mk_entry (lit "1") (Some (lit "2"))] []
           [lit "n000"; lit "n001"; lit "n002"] false).
  - discriminate.
  - reflexivity.
  - reflexivity.
  - reflexivity.
  - left; reflexivity.
  - repeat constructor.
  - simpl. lia.
Defined.

Section NodelistOption.

Variable expand : list ascii -> list (list ascii).
Variable slurm_hostlist_uniq : list (list ascii) -> list (list ascii).
Variable slurm_hostlist_ranged_string_malloc :
  list (list ascii) -> option (list ascii).
Variable getenv : list ascii -> option (list ascii).
Variable fopen : list ascii -> option input.
Variable stdin_input : input.
Variable usage : list ascii.

(** A node list that cannot be opened is fatal: the option [-l] with the
    name of such a file ends the program with [EINVAL] after the one
    message of [add_from_file], whatever options and arguments follow; the
    names gathered before are not shown. *)
Theorem unreadable_nodelist_is_fatal
    (opts1 opts2 : list (ascii * option (list ascii)))
    (args : list (list ascii)) (s : settings) (file : list ascii) :
  option_loop expand getenv fopen usage
    (initial_settings expand stdin_input) opts1 = inl s ->
  Ascii.eqb (deref file) NUL = false ->
  Ascii.eqb (deref file) "-" && Ascii.eqb (deref (tl file)) NUL = false ->
  fopen file = None ->
  main expand slurm_hostlist_uniq slurm_hostlist_ranged_string_malloc
    getenv fopen stdin_input usage
    (opts1 ++ ("l"%char, Some file) :: opts2) args
  = {| written := []; reported := [unable_to_open_nodelist file];
       ended := Exit EINVAL |}.
Proof.
  intros Hopts Hfile Hdash Hopen. unfold main.
  rewrite option_loop_app, Hopts. cbn [option_loop].
  unfold option_case, add_from_file. cbn [Ascii.eqb Bool.eqb].
  rewrite Hfile, Hdash, Hopen. reflexivity.
Qed.

(** A node list that opens but fails to read (a directory, say) keeps the
    program in the loop of [add_from_file]: whatever number of reads is
    allowed the loop has not returned, and the program neither writes nor
    ends. *)
Theorem failing_nodelist_never_ends
    (opts1 opts2 : list (ascii * option (list ascii)))
    (args : list (list ascii)) (s : settings) (file : list ascii)
    (lines : list (list ascii)) :
  option_loop expand getenv fopen usage
    (initial_settings expand stdin_input) opts1 = inl s ->
  Ascii.eqb (deref file) NUL = false ->
  Ascii.eqb (deref file) "-" && Ascii.eqb (deref (tl file)) NUL = false ->
  fopen file = Some (lines, read_error) ->
  (forall fuel,
      read_loop expand fuel (hostlist s) (stream (lines, read_error)) = None)
  /\ main expand slurm_hostlist_uniq slurm_hostlist_ranged_string_malloc
       getenv fopen stdin_input usage
       (opts1 ++ ("l"%char, Some file) :: opts2) args
     = {| written := []; reported := []; ended := Hangs |}.
Proof.
  intros Hopts Hfile Hdash Hopen. split.
  - intros fuel. apply read_loop_fails.
  - unfold main. rewrite option_loop_app, Hopts. cbn [option_loop].
    unfold option_case, add_from_file. cbn [Ascii.eqb Bool.eqb].
    rewrite Hfile, Hdash, Hopen. cbn [negb option_map].
    unfold stream. cbn [unread fst snd].
    rewrite (read_loop_fails expand (S (length lines)) lines (hostlist s)).
    reflexivity.
Qed.

(** The standard input is one stream: the option [-l -] reads it to its
    end, and the same option given again finds the end-of-file indicator
    set, reads nothing and leaves everything as it is. *)
Theorem standard_input_is_read_once (s : settings) :
  last (standard_input s) = end_of_file ->
  exists s1,
    option_case expand getenv fopen usage s "l" (Some (lit "-")) = inl s1
    /\ hostlist s1
       = (if eof_indicator (standard_input s) then hostlist s
          else hostlist s
               ++ flat_map expand
                    (flat_map line_expressions (unread (standard_input s))))
    /\ option_case expand getenv fopen usage s1 "l" (Some (lit "-")) = inl s1.
Proof.
  intros Hlast. unfold option_case at 1, add_from_file.
  cbn [Ascii.eqb Bool.eqb lit deref tl hd negb andb NUL
       list_ascii_of_string].
  destruct s as [m u d n dl f hl [lines l e]].
  cbn [standard_input hostlist last eof_indicator unread] in *. subst l.
  destruct e.
  - rewrite read_loop_at_end by reflexivity.
    eexists. split; [reflexivity|]. split; [reflexivity|].
    unfold option_case, add_from_file.
    cbn [Ascii.eqb Bool.eqb lit deref tl hd negb andb NUL
         list_ascii_of_string with_hostlist with_standard_input
         standard_input hostlist mode do_uniq did_include_an_env_var
         no_repeats_flag delimiter machinefile_format].
    rewrite read_loop_at_end by reflexivity. reflexivity.
  - rewrite read_loop_ends by (cbn [unread]; lia).
    eexists. split; [reflexivity|]. split; [reflexivity|].
    unfold option_case, add_from_file.
    cbn [Ascii.eqb Bool.eqb lit deref tl hd negb andb NUL
         list_ascii_of_string with_hostlist with_standard_input
         standard_input hostlist mode do_uniq did_include_an_env_var
         no_repeats_flag delimiter machinefile_format].
    rewrite read_loop_at_end by reflexivity. reflexivity.
Qed.

End NodelistOption.

Lemma unreadable_nodelist_is_fatal_witness :
  Example.run Example.getenv
    [("i"%char, Some (lit "MYLIST")); ("l"%char, Some (lit "nodes.txt"))]
    [lit "n000"]
  = {| written := [];
       reported := [unable_to_open_nodelist (lit "nodes.txt")];
       ended := Exit EINVAL |}.
Proof.
  apply (unreadable_nodelist_is_fatal Example.expand (fun hl => hl)
           (fun hl => None) Example.getenv Example.fopen Example.no_input []
           [("i"%char, Some (lit "MYLIST"))] [] [lit "n000"] _
           (lit "nodes.txt") eq_refl eq_refl eq_refl eq_refl).
Defined.

Lemma failing_nodelist_never_ends_witness :
  Example.run Example.getenv
    [("u"%char, None); ("l"%char, Some (lit "/tmp"))] [lit "n000"]
  = {| written := []; reported := []; ended := Hangs |}.
Proof.
  apply (proj2 (failing_nodelist_never_ends Example.expand (fun hl => hl)
                  (fun hl => None) Example.getenv Example.fopen
                  Example.no_input [] [("u"%char, None)] [] [lit "n000"] _
                  (lit "/tmp") [] eq_refl eq_refl eq_refl eq_refl)).
Defined.

Lemma standard_input_is_read_once_witness :
  exists s1,
    option_case Example.expand Example.getenv Example.fopen []
      (initial_settings Example.expand ([lit "n000,n001"], end_of_file))
      "l" (Some (lit "-")) = inl s1
    /\ hostlist s1 = [lit "n000"; lit "n001"]
    /\ option_case Example.expand Example.getenv Example.fopen [] s1
         "l" (Some (lit "-")) = inl s1.
Proof.
  apply (standard_input_is_read_once Example.expand Example.getenv
           Example.fopen []
           (initial_settings Example.expand ([lit "n000,n001"], end_of_file))
           eq_refl).
Defined.

Lemma add_from_file_outcomes_witness :
  add_from_file Example.expand Example.fopen (stream Example.no_input)
    [lit "a"] (lit "hosts")
  = Some (true, [lit "a"; lit "n000"; lit "n001"; lit "g1"; lit "g2"], [],
          stream Example.no_input).
Proof.
  apply (proj1 (add_from_file_outcomes Example.expand Example.fopen
                  (stream Example.no_input) [lit "a"] (lit "hosts"))).
Defined.
